(** * ensure_cloudtrail: a shallow embedding of [bin/ensure_cloudtrail.py]

    The script makes sure an S3 bucket exists, installs a bucket policy that
    lets CloudTrail write to it, and creates or updates a trail in every
    CloudTrail region.  Python values are embedded as a small JSON-like
    datatype, exceptions as an error type, and the remote AWS account as an
    explicit [world] that records every remote call that was issued. *)

From Stdlib Require Import ZArith String Ascii List Bool Lia.
From stdpp Require Import base option list gmap strings pretty.

Import ListNotations.
Set Warnings "-register-all".
Local Open Scope string_scope.
Local Open Scope Z_scope.
Local Open Scope list_scope.

(** ** Python values and exceptions *)

Module Py.

(** The values that [json.loads] produces and [json.dumps] consumes.  A dict
    is kept as the list of its items in the order they are written. *)
Inductive value : Type :=
| VNone
| VBool (b : bool)
| VInt (n : Z)
| VStr (s : string)
| VList (items : list value)
| VDict (items : list (string * value)).

(** The exceptions that the script can meet.  Only [BotoServerError] (and its
    subclasses such as [S3ResponseError]) carries a [status] attribute. *)
Inductive exn : Type :=
| BotoServerError (status : Z)
| ConnectionError
| KeyError (key : string)
| TypeError
| IndexError
| AttributeError (attr : string)
| ValueError
| SystemExit (code : Z).

Inductive result (A : Type) : Type :=
| Ok (a : A)
| Raise (e : exn).

Arguments Ok {A} a.
Arguments Raise {A} e.

Definition rbind {A B} (r : result A) (k : A -> result B) : result B :=
  match r with
  | Ok a => k a
  | Raise e => Raise e
  end.

(** [e.status]: an attribute lookup, which itself raises on an exception
    that has no such attribute. *)
Definition status (e : exn) : result Z :=
  match e with
  | BotoServerError s => Ok s
  | _ => Raise (AttributeError "status")
  end.

(** [d[key]] on a dict literal or a parsed JSON object. *)
Fixpoint lookup_item (key : string) (items : list (string * value)) : option value :=
  match items with
  | [] => None
  | (k, v) :: rest => if String.eqb k key then Some v else lookup_item key rest
  end.

(** [v[key]] with a string key: only a dict can be subscripted that way. *)
Definition getitem (v : value) (key : string) : result value :=
  match v with
  | VDict items =>
      match lookup_item key items with
      | Some x => Ok x
      | None => Raise (KeyError key)
      end
  | _ => Raise TypeError
  end.

Definition chars (s : string) : list value :=
  map (fun c => VStr (String c EmptyString)) (list_ascii_of_string s).

(** [for x in v]: the sequence a [for] loop walks.  A list yields its items,
    a dict its keys, a string its characters; nothing else is iterable. *)
Definition iter (v : value) : result (list value) :=
  match v with
  | VList items => Ok items
  | VDict items => Ok (map (fun kv => VStr (fst kv)) items)
  | VStr s => Ok (chars s)
  | _ => Raise TypeError
  end.

(** A value used where a string is required ([re.match], [str + v]). *)
Definition as_str (v : value) : result string :=
  match v with
  | VStr s => Ok s
  | _ => Raise TypeError
  end.

(** Truth value of a string: the empty string is false. *)
Definition truthy_str (s : string) : bool := negb (String.eqb s "").

(** [template % args] restricted to the [%s] and [%%] conversions, with all
    arguments strings.  Too few or too many arguments raise [TypeError]; any
    other conversion character is not supported and raises [ValueError]. *)
Fixpoint format (template : string) (args : list string) : result string :=
  match template with
  | EmptyString =>
      match args with
      | [] => Ok EmptyString
      | _ :: _ => Raise TypeError
      end
  | String "%" (String "s" rest) =>
      match args with
      | [] => Raise TypeError
      | a :: args' => rbind (format rest args') (fun out => Ok (a +:+ out))
      end
  | String "%" (String "%" rest) =>
      rbind (format rest args) (fun out => Ok (String "%" out))
  | String "%" _ => Raise ValueError
  | String c rest => rbind (format rest args) (fun out => Ok (String c out))
  end.

(** [s.split(sep)] for a one-character separator: never an empty list. *)
Fixpoint split (sep : ascii) (s : string) : list string :=
  match s with
  | EmptyString => [EmptyString]
  | String c rest =>
      if Ascii.eqb c sep then EmptyString :: split sep rest
      else match split sep rest with
           | [] => [String c EmptyString]
           | field :: fields => String c field :: fields
           end
  end.

(** [l[i]] on a list, for a non-negative index. *)
Definition index {A} (l : list A) (i : nat) : result A :=
  match nth_error l i with
  | Some x => Ok x
  | None => Raise IndexError
  end.

End Py.

Import Py.

(** ** Regular expressions, as far as the script uses them *)

Module Re.

(** Literal text, the start-of-string anchor [^], concatenation and
    alternation. *)
Inductive regex : Type :=
| Lit (text : string)
| Bol
| Seq (r1 r2 : regex)
| Alt (r1 r2 : regex).

Fixpoint strip_prefix (p s : string) : option string :=
  match p with
  | EmptyString => Some s
  | String a p' =>
      match s with
      | EmptyString => None
      | String b s' => if Ascii.eqb a b then strip_prefix p' s' else None
      end
  end.

(** Backtracking matcher: [pos] is the number of characters consumed so far,
    [s] the rest of the subject, [k] what has to match afterwards. *)
Fixpoint matches (r : regex) (pos : nat) (s : string)
    (k : nat -> string -> bool) : bool :=
  match r with
  | Lit text =>
      match strip_prefix text s with
      | Some rest => k (pos + String.length text)%nat rest
      | None => false
      end
  | Bol => if Nat.eqb pos 0 then k pos s else false
  | Seq r1 r2 => matches r1 pos s (fun pos' s' => matches r2 pos' s' k)
  | Alt r1 r2 => matches r1 pos s k || matches r2 pos s k
  end.

(** [re.match(r, s)] is not [None]: the pattern is tried at position 0 only
    and may stop anywhere. *)
Definition re_match (r : regex) (s : string) : bool :=
  matches r 0 s (fun _ _ => true).

End Re.

Import Re.

(** ** A JSON codec *)

(** One concrete pair of a printer and a parser for [value], to run the
    script on concrete worlds.  The printer writes the compact form on one
    line, whatever the indent; the parser reads that form, with blanks
    allowed between tokens. *)
Module Json.

Definition dquote : ascii := "034"%char.
Definition backslash : ascii := "092"%char.

Fixpoint escape (s : string) : string :=
  match s with
  | EmptyString => EmptyString
  | String c rest =>
      if Ascii.eqb c dquote || Ascii.eqb c backslash
      then String backslash (String c (escape rest))
      else String c (escape rest)
  end.

Definition quote (s : string) : string :=
  String dquote (escape s +:+ String dquote EmptyString).

Fixpoint print (v : value) : string :=
  match v with
  | VNone => "null"
  | VBool true => "true"
  | VBool false => "false"
  | VInt n => pretty n
  | VStr s => quote s
  | VList items =>
      "[" +:+
      (fix go (l : list value) : string :=
         match l with
         | [] => ""
         | x :: l' =>
             match l' with
             | [] => print x
             | _ :: _ => print x +:+ "," +:+ go l'
             end
         end) items +:+ "]"
  | VDict items =>
      "{" +:+
      (fix go (l : list (string * value)) : string :=
         match l with
         | [] => ""
         | (k, x) :: l' =>
             match l' with
             | [] => quote k +:+ ":" +:+ print x
             | _ :: _ => quote k +:+ ":" +:+ print x +:+ "," +:+ go l'
             end
         end) items +:+ "}"
  end.

Definition dumps (indent : Z) (v : value) : string := print v.

Fixpoint skip_blanks (s : string) : string :=
  match s with
  | EmptyString => EmptyString
  | String c rest => if Ascii.is_space c then skip_blanks rest else s
  end.

(** The rest of a string literal, after its opening quote. *)
Fixpoint parse_string (s : string) : option (string * string) :=
  match s with
  | EmptyString => None
  | String c rest =>
      if Ascii.eqb c dquote then Some (EmptyString, rest)
      else if Ascii.eqb c backslash then
        match rest with
        | EmptyString => None
        | String d rest' =>
            match parse_string rest' with
            | Some (text, after) => Some (String d text, after)
            | None => None
            end
        end
      else
        match parse_string rest with
        | Some (text, after) => Some (String c text, after)
        | None => None
        end
  end.

Fixpoint parse_digits (acc : Z) (s : string) : Z * string :=
  match s with
  | EmptyString => (acc, s)
  | String c rest =>
      match Ascii.is_nat c with
      | Some d => parse_digits (10 * acc + Z.of_nat d) rest
      | None => (acc, s)
      end
  end.

Definition parse_number (s : string) : option (value * string) :=
  match s with
  | String "-" (String c rest) =>
      match Ascii.is_nat c with
      | Some d => let (n, after) := parse_digits (Z.of_nat d) rest in
                  Some (VInt (- n), after)
      | None => None
      end
  | String c rest =>
      match Ascii.is_nat c with
      | Some d => let (n, after) := parse_digits (Z.of_nat d) rest in
                  Some (VInt n, after)
      | None => None
      end
  | EmptyString => None
  end.

Fixpoint parse_value (fuel : nat) (s : string) : option (value * string) :=
  match fuel with
  | O => None
  | S fuel' =>
      let s := skip_blanks s in
      match strip_prefix "null" s with
      | Some after => Some (VNone, after)
      | None =>
      match strip_prefix "true" s with
      | Some after => Some (VBool true, after)
      | None =>
      match strip_prefix "false" s with
      | Some after => Some (VBool false, after)
      | None =>
      match s with
      | EmptyString => None
      | String c rest =>
          if Ascii.eqb c dquote then
            match parse_string rest with
            | Some (text, after) => Some (VStr text, after)
            | None => None
            end
          else if Ascii.eqb c "[" then
            match strip_prefix "]" (skip_blanks rest) with
            | Some after => Some (VList [], after)
            | None =>
                match parse_items fuel' rest with
                | Some (items, after) => Some (VList items, after)
                | None => None
                end
            end
          else if Ascii.eqb c "{" then
            match strip_prefix "}" (skip_blanks rest) with
            | Some after => Some (VDict [], after)
            | None =>
                match parse_members fuel' rest with
                | Some (items, after) => Some (VDict items, after)
                | None => None
                end
            end
          else parse_number s
      end end end end
  end
with parse_items (fuel : nat) (s : string) : option (list value * string) :=
  match fuel with
  | O => None
  | S fuel' =>
      match parse_value fuel' s with
      | Some (x, after) =>
          match skip_blanks after with
          | String "," rest =>
              match parse_items fuel' rest with
              | Some (xs, after') => Some (x :: xs, after')
              | None => None
              end
          | String "]" rest => Some ([x], rest)
          | _ => None
          end
      | None => None
      end
  end
with parse_members (fuel : nat) (s : string)
    : option (list (string * value) * string) :=
  match fuel with
  | O => None
  | S fuel' =>
      match strip_prefix (String dquote EmptyString) (skip_blanks s) with
      | Some rest =>
          match parse_string rest with
          | Some (key, after) =>
              match strip_prefix ":" (skip_blanks after) with
              | Some rest' =>
                  match parse_value fuel' rest' with
                  | Some (x, after') =>
                      match skip_blanks after' with
                      | String "," rest'' =>
                          match parse_members fuel' rest'' with
                          | Some (xs, after'') => Some ((key, x) :: xs, after'')
                          | None => None
                          end
                      | String "}" rest'' => Some ([(key, x)], rest'')
                      | _ => None
                      end
                  | None => None
                  end
              | None => None
              end
          | None => None
          end
      | None => None
      end
  end.

Definition loads (s : string) : result value :=
  match parse_value (S (String.length s)) s with
  | Some (v, after) =>
      match skip_blanks after with
      | EmptyString => Ok v
      | _ => Raise ValueError
      end
  | None => Raise ValueError
  end.

End Json.

(** ** The remote account *)

(** A trail as [describe_trails] reports it. *)
Record trail : Type := {
  Name : string;
  S3BucketName : string;
  S3KeyPrefix : string;
  IncludeGlobalServiceEvents : bool;
  IsLogging : bool
}.

(** The remote requests the script can issue. *)
Inductive call : Type :=
| GetUser
| GetBucket (bucket_name : string)
| CreateBucket (bucket_name : string)
| GetBucketPolicy (bucket_name : string)
| PutBucketPolicy (bucket_name policy : string)
| DescribeTrails (region : string)
| CreateTrail (region name s3_bucket_name s3_key_prefix : string)
    (include_global_service_events : bool)
| UpdateTrail (region name s3_bucket_name s3_key_prefix : string)
    (include_global_service_events : bool)
| StartLogging (region name : string).

(** Everything outside the script: the account (caller identity, buckets with
    their policy text, trails per region), boto's local list of CloudTrail
    regions, a fault schedule saying which request fails (by its position in
    the run and its content), and what the run has produced so far: the
    requests issued, the log lines and the help messages printed. *)
Record world : Type := {
  caller_arn : string;
  buckets : gmap string (option string);
  trails : gmap string (list trail);
  cloudtrail_regions : list string;
  faults : nat -> call -> option exn;
  calls : list call;
  log : list string;
  help_printed : nat
}.

Definition with_buckets (b : gmap string (option string)) (w : world) : world :=
  {| caller_arn := caller_arn w; buckets := b; trails := trails w;
     cloudtrail_regions := cloudtrail_regions w; faults := faults w;
     calls := calls w; log := log w; help_printed := help_printed w |}.

Definition with_trails (t : gmap string (list trail)) (w : world) : world :=
  {| caller_arn := caller_arn w; buckets := buckets w; trails := t;
     cloudtrail_regions := cloudtrail_regions w; faults := faults w;
     calls := calls w; log := log w; help_printed := help_printed w |}.

Definition with_calls (c : list call) (w : world) : world :=
  {| caller_arn := caller_arn w; buckets := buckets w; trails := trails w;
     cloudtrail_regions := cloudtrail_regions w; faults := faults w;
     calls := c; log := log w; help_printed := help_printed w |}.

Definition with_log (l : list string) (w : world) : world :=
  {| caller_arn := caller_arn w; buckets := buckets w; trails := trails w;
     cloudtrail_regions := cloudtrail_regions w; faults := faults w;
     calls := calls w; log := l; help_printed := help_printed w |}.

Definition with_help_printed (n : nat) (w : world) : world :=
  {| caller_arn := caller_arn w; buckets := buckets w; trails := trails w;
     cloudtrail_regions := cloudtrail_regions w; faults := faults w;
     calls := calls w; log := log w; help_printed := n |}.

(** ** Computations: state passing with exceptions *)

(** A raised exception leaves the world as it was at the raise: requests
    already issued stay issued. *)
Definition M (A : Type) : Type := world -> result A * world.

Definition ret {A} (a : A) : M A := fun w => (Ok a, w).

Definition raise {A} (e : exn) : M A := fun w => (Raise e, w).

Definition bind {A B} (m : M A) (k : A -> M B) : M B :=
  fun w =>
    match m w with
    | (Ok a, w') => k a w'
    | (Raise e, w') => (Raise e, w')
    end.

Definition lift {A} (r : result A) : M A := fun w => (r, w).

Notation "x <- m ;; k" := (bind m (fun x => k))
  (at level 100, m at next level, right associativity).
Notation "m ;;; k" := (bind m (fun _ => k))
  (at level 100, right associativity).

(** [SystemExit] is not a subclass of [Exception]. *)
Definition is_Exception (e : exn) : bool :=
  match e with
  | SystemExit _ => false
  | _ => true
  end.

(** [try: body  except Exception as e: handler e]. *)
Definition try_except {A} (body : M A) (handler : exn -> M A) : M A :=
  fun w =>
    match body w with
    | (Ok a, w') => (Ok a, w')
    | (Raise e, w') => if is_Exception e then handler e w' else (Raise e, w')
    end.

(** One remote request: it is recorded, then it either fails as the fault
    schedule says or is served from the account. *)
Definition request {A} (c : call) (serve : M A) : M A :=
  fun w =>
    let w' := with_calls (calls w ++ [c]) w in
    match faults w (length (calls w)) c with
    | Some e => (Raise e, w')
    | None => serve w'
    end.

Definition logging_info (msg : string) : M unit :=
  fun w => (Ok tt, with_log (log w ++ [msg]) w).

(** ** boto *)

Record Bucket : Type := { name : string }.

Record CloudTrailConnection : Type := { region : string }.

Definition trails_in (r : string) (w : world) : list trail :=
  default [] (trails w !! r).

(** [boto.connect_iam().get_user().arn] *)
Definition get_user_arn : M string :=
  request GetUser (fun w => (Ok (caller_arn w), w)).

(** [s3_conn.get_bucket(bucket_name)]: 404 when there is no such bucket. *)
Definition get_bucket (bucket_name : string) : M Bucket :=
  request (GetBucket bucket_name) (fun w =>
    match buckets w !! bucket_name with
    | Some _ => (Ok {| name := bucket_name |}, w)
    | None => (Raise (BotoServerError 404), w)
    end).

(** [s3_conn.create_bucket(bucket_name=bucket_name)]: 409 when taken. *)
Definition create_bucket (bucket_name : string) : M Bucket :=
  request (CreateBucket bucket_name) (fun w =>
    match buckets w !! bucket_name with
    | Some _ => (Raise (BotoServerError 409), w)
    | None =>
        (Ok {| name := bucket_name |},
         with_buckets (<[bucket_name := None]> (buckets w)) w)
    end).

(** [s3_bucket.get_policy()]: 404 when the bucket has no policy. *)
Definition get_policy (s3_bucket : Bucket) : M string :=
  request (GetBucketPolicy (name s3_bucket)) (fun w =>
    match buckets w !! name s3_bucket with
    | Some (Some policy) => (Ok policy, w)
    | _ => (Raise (BotoServerError 404), w)
    end).

(** [s3_bucket.set_policy(policy)]: the text replaces the bucket's policy. *)
Definition set_policy (s3_bucket : Bucket) (policy : string) : M unit :=
  request (PutBucketPolicy (name s3_bucket) policy) (fun w =>
    match buckets w !! name s3_bucket with
    | Some _ =>
        (Ok tt, with_buckets (<[name s3_bucket := Some policy]> (buckets w)) w)
    | None => (Raise (BotoServerError 404), w)
    end).

(** [boto.regioninfo.get_regions('cloudtrail')], names only: read from the
    endpoint data shipped with boto, no request is made. *)
Definition get_regions : M (list string) :=
  fun w => (Ok (cloudtrail_regions w), w).

(** [boto.cloudtrail.connect_to_region(region_name)]: [None] for a name that
    is not a CloudTrail region. *)
Definition connect_to_region (region_name : string)
    : M (option CloudTrailConnection) :=
  fun w =>
    (Ok (if existsb (String.eqb region_name) (cloudtrail_regions w)
         then Some {| region := region_name |} else None), w).

(** A method call on what [connect_to_region] returned. *)
Definition method {A} (conn : option CloudTrailConnection) (attr : string)
    (f : CloudTrailConnection -> M A) : M A :=
  match conn with
  | Some c => f c
  | None => raise (AttributeError attr)
  end.

(** [cloudtrail_conn.describe_trails()['trailList']] *)
Definition describe_trails (conn : option CloudTrailConnection)
    : M (list trail) :=
  method conn "describe_trails" (fun c =>
    request (DescribeTrails (region c)) (fun w =>
      (Ok (trails_in (region c) w), w))).

Definition has_trail (trail_name : string) (ts : list trail) : bool :=
  existsb (fun t => String.eqb (Name t) trail_name) ts.

(** [cloudtrail_conn.create_trail(name, s3_bucket_name=, s3_key_prefix=,
    include_global_service_events=)]: 400 when the name is in use. *)
Definition create_trail (conn : option CloudTrailConnection)
    (trail_name s3_bucket_name s3_key_prefix : string)
    (include_global_service_events : bool) : M unit :=
  method conn "create_trail" (fun c =>
    request (CreateTrail (region c) trail_name s3_bucket_name s3_key_prefix
               include_global_service_events) (fun w =>
      let ts := trails_in (region c) w in
      if has_trail trail_name ts then (Raise (BotoServerError 400), w)
      else
        let t := {| Name := trail_name; S3BucketName := s3_bucket_name;
                    S3KeyPrefix := s3_key_prefix;
                    IncludeGlobalServiceEvents := include_global_service_events;
                    IsLogging := false |} in
        (Ok tt, with_trails (<[region c := ts ++ [t]]> (trails w)) w))).

Definition update_named (trail_name : string) (f : trail -> trail)
    (ts : list trail) : list trail :=
  map (fun t => if String.eqb (Name t) trail_name then f t else t) ts.

(** [cloudtrail_conn.update_trail(...)]: 400 when there is no such trail. *)
Definition update_trail (conn : option CloudTrailConnection)
    (trail_name s3_bucket_name s3_key_prefix : string)
    (include_global_service_events : bool) : M unit :=
  method conn "update_trail" (fun c =>
    request (UpdateTrail (region c) trail_name s3_bucket_name s3_key_prefix
               include_global_service_events) (fun w =>
      let ts := trails_in (region c) w in
      if has_trail trail_name ts then
        let f t := {| Name := Name t; S3BucketName := s3_bucket_name;
                      S3KeyPrefix := s3_key_prefix;
                      IncludeGlobalServiceEvents := include_global_service_events;
                      IsLogging := IsLogging t |} in
        (Ok tt,
         with_trails (<[region c := update_named trail_name f ts]> (trails w)) w)
      else (Raise (BotoServerError 400), w))).

(** [cloudtrail_conn.start_logging(name)] *)
Definition start_logging (conn : option CloudTrailConnection)
    (trail_name : string) : M unit :=
  method conn "start_logging" (fun c =>
    request (StartLogging (region c) trail_name) (fun w =>
      let ts := trails_in (region c) w in
      if has_trail trail_name ts then
        let f t := {| Name := Name t; S3BucketName := S3BucketName t;
                      S3KeyPrefix := S3KeyPrefix t;
                      IncludeGlobalServiceEvents := IncludeGlobalServiceEvents t;
                      IsLogging := true |} in
        (Ok tt,
         with_trails (<[region c := update_named trail_name f ts]> (trails w)) w)
      else (Raise (BotoServerError 400), w))).

(** ** The script *)

Section Script.

(** [json.loads] and [json.dumps(_, indent=_)] of the Python standard
    library are left abstract. *)
Variable json_loads : string -> result value.
Variable json_dumps : Z -> value -> string.

(** [get_aws_account_id()] *)
Definition get_aws_account_id : M string :=
  arn <- get_user_arn ;;
  lift (index (split ":" arn) 4).

(** [ensure_s3_bucket(bucket_name)] *)
Definition ensure_s3_bucket (bucket_name : string) : M Bucket :=
  archive_bucket <-
    try_except
      (b <- get_bucket bucket_name ;; ret (Some b))
      (fun e =>
         s <- lift (status e) ;;
         if negb (s =? 404) then raise e else ret None) ;;
  match archive_bucket with
  | Some b => ret b
  | None =>
      logging_info ("Bucket does not exist. Creating " +:+ bucket_name) ;;;
      create_bucket bucket_name
  end.

(** [get_aws_cloudtrail_aclcheck_s3_policy_statement(s3_bucket_name)] *)
Definition get_aws_cloudtrail_aclcheck_s3_policy_statement
    (s3_bucket_name : string) : result value :=
  rbind (format "arn:aws:s3:::%s" [s3_bucket_name]) (fun resource =>
  Ok (VDict [
    ("Sid", VStr "AWSCloudTrailAclCheck20131101");
    ("Effect", VStr "Allow");
    ("Principal", VDict [
      ("AWS", VList [
        VStr "arn:aws:iam::903692715234:root";
        VStr "arn:aws:iam::859597730677:root";
        VStr "arn:aws:iam::814480443879:root";
        VStr "arn:aws:iam::216624486486:root";
        VStr "arn:aws:iam::086441151436:root";
        VStr "arn:aws:iam::388731089494:root";
        VStr "arn:aws:iam::284668455005:root";
        VStr "arn:aws:iam::113285607260:root";
        VStr "arn:aws:iam::035351147821:root"
      ])
    ]);
    ("Action", VStr "s3:GetBucketAcl");
    ("Resource", VStr resource)
  ])).

(** [get_aws_cloudtrail_write_s3_policy_statement(aws_account_id,
    s3_bucket_name, s3_prefix)] *)
Definition get_aws_cloudtrail_write_s3_policy_statement
    (aws_account_id s3_bucket_name s3_prefix : string) : result value :=
  rbind (format "arn:aws:s3:::%s%s/AWSLogs/%s/*"
           [s3_bucket_name; s3_prefix; aws_account_id]) (fun resource =>
  Ok (VDict [
    ("Sid", VStr "AWSCloudTrailWrite20131101");
    ("Effect", VStr "Allow");
    ("Principal", VDict [
      ("AWS", VList [
        VStr "arn:aws:iam::903692715234:root";
        VStr "arn:aws:iam::859597730677:root";
        VStr "arn:aws:iam::814480443879:root";
        VStr "arn:aws:iam::216624486486:root";
        VStr "arn:aws:iam::086441151436:root";
        VStr "arn:aws:iam::388731089494:root";
        VStr "arn:aws:iam::284668455005:root";
        VStr "arn:aws:iam::113285607260:root";
        VStr "arn:aws:iam::035351147821:root"
      ])
    ]);
    ("Action", VStr "s3:PutObject");
    ("Resource", VStr resource);
    ("Condition", VDict [
      ("StringEquals", VDict [
        ("s3:x-amz-acl", VStr "bucket-owner-full-control")
      ])
    ])
  ])).

(** The pattern ['^AWSCloudTrailAclCheck|AWSCloudTrailWrite']: alternation
    binds loosest, so the anchor belongs to the first branch only. *)
Definition cloudtrail_sid_pattern : regex :=
  Alt (Seq Bol (Lit "AWSCloudTrailAclCheck")) (Lit "AWSCloudTrailWrite").

(** The loop [for policy_statement in existing_bucket_policy['Statement']] of
    [ensure_bucket_policy]; [statements] is [new_policy['Statement']]. *)
Fixpoint strip_cloudtrail_statements (existing statements : list value)
    : M (list value) :=
  match existing with
  | [] => ret statements
  | policy_statement :: rest =>
      sid <- lift (rbind (getitem policy_statement "Sid") as_str) ;;
      if negb (re_match cloudtrail_sid_pattern sid) then
        logging_info ("Maintaining policy Sid: " +:+ sid) ;;;
        strip_cloudtrail_statements rest (statements ++ [policy_statement])
      else
        logging_info ("Stripping out policy Sid: " +:+ sid) ;;;
        strip_cloudtrail_statements rest statements
  end.

(** [new_policy] with its statement list filled in. *)
Definition new_policy (statements : list value) : value :=
  VDict [("Version", VStr "2012-10-17"); ("Statement", VList statements)].

(** [ensure_bucket_policy(s3_bucket, s3_prefix)] *)
Definition ensure_bucket_policy (s3_bucket : Bucket) (s3_prefix : string)
    : M unit :=
  existing_bucket_policy_str <-
    try_except
      (p <- get_policy s3_bucket ;; ret (Some p))
      (fun e =>
         s <- lift (status e) ;;
         if negb (s =? 404) then raise e else ret None) ;;
  statements <-
    match existing_bucket_policy_str with
    | Some text =>
        if truthy_str text then
          logging_info
            ("Existing bucket policy found for bucket " +:+ name s3_bucket) ;;;
          existing_bucket_policy <- lift (json_loads text) ;;
          existing <-
            lift (rbind (getitem existing_bucket_policy "Statement") iter) ;;
          strip_cloudtrail_statements existing []
        else ret []
    | None => ret []
    end ;;
  aclcheck <-
    lift (get_aws_cloudtrail_aclcheck_s3_policy_statement (name s3_bucket)) ;;
  logging_info "Adding new CloudTrail ACL Check S3 Bucket Policy" ;;;
  aws_account_id <- get_aws_account_id ;;
  write <-
    lift (get_aws_cloudtrail_write_s3_policy_statement aws_account_id
            (name s3_bucket) s3_prefix) ;;
  logging_info "Adding new CloudTrail Write S3 Bucket Policy" ;;;
  set_policy s3_bucket
    (json_dumps 2 (new_policy (statements ++ [aclcheck] ++ [write]))).

(** [ensure_cloudtrail_for_region(region_name, s3_bucket, s3_prefix)] *)
Definition ensure_cloudtrail_for_region (region_name : string)
    (s3_bucket : Bucket) (s3_prefix : string) : M unit :=
  cloudtrail_conn <- connect_to_region region_name ;;
  trail_list <- describe_trails cloudtrail_conn ;;
  trail_name <-
    match trail_list with
    | [] =>
        let trail_name := "Default" in
        create_trail cloudtrail_conn trail_name (name s3_bucket) s3_prefix
          true ;;;
        ret trail_name
    | first :: _ =>
        let trail_name := Name first in
        update_trail cloudtrail_conn trail_name (name s3_bucket) s3_prefix
          true ;;;
        ret trail_name
    end ;;
  start_logging cloudtrail_conn trail_name.

(** [get_cloudtrail_regions()] *)
Definition get_cloudtrail_regions : M (list string) := get_regions.

(** The loop of [ensure_cloudtrail] over the region names. *)
Fixpoint for_each_region (region_names : list string) (s3_bucket : Bucket)
    (s3_prefix : string) : M unit :=
  match region_names with
  | [] => ret tt
  | region_name :: rest =>
      logging_info ("Ensuring CloudTrail is logging to " +:+ name s3_bucket
                    +:+ s3_prefix +:+ " in region " +:+ region_name) ;;;
      ensure_cloudtrail_for_region region_name s3_bucket s3_prefix ;;;
      for_each_region rest s3_bucket s3_prefix
  end.

(** [ensure_cloudtrail(s3_bucket, s3_prefix)] *)
Definition ensure_cloudtrail (s3_bucket : Bucket) (s3_prefix : string)
    : M unit :=
  region_names <- get_cloudtrail_regions ;;
  for_each_region region_names s3_bucket s3_prefix.

(** What [parser.parse_args()] returns: [dest='bucket_name'] has no default
    (so [None]), [dest='s3_prefix'] has [default='']. *)
Record Namespace : Type := {
  args_bucket_name : option string;
  args_s3_prefix : string
}.

Definition parser_defaults : Namespace :=
  {| args_bucket_name := None; args_s3_prefix := "" |}.

(** [parser.print_help()] *)
Definition print_help : M unit :=
  fun w => (Ok tt, with_help_printed (S (help_printed w)) w).

(** [parser.parse_args()] over the command line, for options written as a
    flag followed by its value in the next word; [-h] prints the help and
    leaves with status 0, anything the parser does not know leaves with
    status 2.  It stands in for argparse, whose other spellings
    ([--bucket=NAME], [-bNAME], abbreviated flags) and whose refusal of a
    value that looks like an option it does not have; the properties of the
    program take the parser by what it returns, never by its grammar. *)
Fixpoint parse_args (argv : list string) (ns : Namespace) : M Namespace :=
  match argv with
  | [] => ret ns
  | flag :: rest =>
      if String.eqb flag "-h" || String.eqb flag "--help" then
        print_help ;;; raise (SystemExit 0)
      else if String.eqb flag "-b" || String.eqb flag "--bucket" then
        match rest with
        | v :: rest' =>
            parse_args rest'
              {| args_bucket_name := Some v;
                 args_s3_prefix := args_s3_prefix ns |}
        | [] => raise (SystemExit 2)
        end
      else if String.eqb flag "-p" || String.eqb flag "--prefix" then
        match rest with
        | v :: rest' =>
            parse_args rest'
              {| args_bucket_name := args_bucket_name ns;
                 args_s3_prefix := v |}
        | [] => raise (SystemExit 2)
        end
      else raise (SystemExit 2)
  end.

(** The body under [if __name__ == '__main__']. *)
Definition main (argv : list string) : M unit :=
  args <- parse_args argv parser_defaults ;;
  match args_bucket_name args with
  | Some bucket_name =>
      if truthy_str bucket_name then
        s3_bucket <- ensure_s3_bucket bucket_name ;;
        ensure_bucket_policy s3_bucket (args_s3_prefix args) ;;;
        ensure_cloudtrail s3_bucket (args_s3_prefix args)
      else print_help ;;; raise (SystemExit 1)
  | None => print_help ;;; raise (SystemExit 1)
  end.

(** The status the interpreter leaves with. *)
Definition exit_status (r : result unit) : Z :=
  match r with
  | Ok _ => 0
  | Raise (SystemExit code) => code
  | Raise _ => 1
  end.

(** ** Vocabulary of the properties *)

(** [s] begins with [p]. *)
Definition begins_with (p s : string) : Prop := exists rest, s = p +:+ rest.

(** A Sid under one of the two prefixes reserved for CloudTrail. *)
Definition reserved_sid (sid : string) : Prop :=
  begins_with "AWSCloudTrailAclCheck" sid \/ begins_with "AWSCloudTrailWrite" sid.

(** The statement is a dict whose ["Sid"] is a string. *)
Definition has_str_sid (st : value) : Prop :=
  exists sid, getitem st "Sid" = Ok (VStr sid).

Definition sid_is (sid : string) (st : value) : bool :=
  match getitem st "Sid" with
  | Ok (VStr s) => String.eqb s sid
  | _ => false
  end.

(** How many statements of the list carry exactly this Sid. *)
Definition count_sid (sid : string) (statements : list value) : nat :=
  length (List.filter (sid_is sid) statements).

(** The loop carries a statement forward: its Sid is a string that the
    pattern does not match. *)
Definition carried_forward (st : value) : bool :=
  match rbind (getitem st "Sid") as_str with
  | Ok sid => negb (re_match cloudtrail_sid_pattern sid)
  | Raise _ => false
  end.

(** Between the two worlds only log lines were added. *)
Definition log_only (w w' : world) : Prop :=
  exists msgs, w' = with_log (log w ++ msgs) w.

(** The last lines of [ensure_bucket_policy], after the loop, with
    [statements] for what [new_policy['Statement']] holds by then. *)
Definition append_cloudtrail_statements (s3_bucket : Bucket)
    (s3_prefix : string) (statements : list value) : M unit :=
  aclcheck <-
    lift (get_aws_cloudtrail_aclcheck_s3_policy_statement (name s3_bucket)) ;;
  logging_info "Adding new CloudTrail ACL Check S3 Bucket Policy" ;;;
  aws_account_id <- get_aws_account_id ;;
  write <-
    lift (get_aws_cloudtrail_write_s3_policy_statement aws_account_id
            (name s3_bucket) s3_prefix) ;;
  logging_info "Adding new CloudTrail Write S3 Bucket Policy" ;;;
  set_policy s3_bucket
    (json_dumps 2 (new_policy (statements ++ [aclcheck] ++ [write]))).

(** [statement['Principal']['AWS']] *)
Definition principals (statement : value) : result value :=
  rbind (getitem statement "Principal") (fun p => getitem p "AWS").

(** [statement['Condition']['StringEquals']['s3:x-amz-acl']] *)
Definition acl_condition (statement : value) : result value :=
  rbind (getitem statement "Condition") (fun c =>
  rbind (getitem c "StringEquals") (fun c' => getitem c' "s3:x-amz-acl")).

Definition cloudtrail_principals : list value := [
  VStr "arn:aws:iam::903692715234:root";
  VStr "arn:aws:iam::859597730677:root";
  VStr "arn:aws:iam::814480443879:root";
  VStr "arn:aws:iam::216624486486:root";
  VStr "arn:aws:iam::086441151436:root";
  VStr "arn:aws:iam::388731089494:root";
  VStr "arn:aws:iam::284668455005:root";
  VStr "arn:aws:iam::113285607260:root";
  VStr "arn:aws:iam::035351147821:root"
].

(** No request of the run is made to fail from outside. *)
Definition fault_free (w : world) : Prop := forall n c, faults w n c = None.

(** What a served request leaves alone. *)
Definition same_env (w w' : world) : Prop :=
  faults w' = faults w /\ cloudtrail_regions w' = cloudtrail_regions w.


(** The requests one region gets: a describe, then a create or an update,
    then a start-logging on the same trail, all in that region. *)
Definition region_calls (s3_bucket : Bucket) (s3_prefix region_name : string)
    (cs : list call) : Prop :=
  exists trail_name,
    cs = [DescribeTrails region_name;
          CreateTrail region_name trail_name (name s3_bucket) s3_prefix true;
          StartLogging region_name trail_name] \/
    cs = [DescribeTrails region_name;
          UpdateTrail region_name trail_name (name s3_bucket) s3_prefix true;
          StartLogging region_name trail_name].

(** ** An example account *)

Definition example_bucket : Bucket := {| name := "audit-logs" |}.

(** A statement an administrator wrote. *)
Definition example_admin_statement : value :=
  VDict [("Sid", VStr "AllowAdmins");
         ("Effect", VStr "Allow");
         ("Principal", VDict [("AWS", VStr "arn:aws:iam::123456789012:root")]);
         ("Action", VStr "s3:*");
         ("Resource", VStr "arn:aws:s3:::audit-logs/*")].

(** A statement left by an earlier run. *)
Definition example_stale_statement : value :=
  VDict [("Sid", VStr "AWSCloudTrailWrite20130101");
         ("Effect", VStr "Allow");
         ("Principal", VDict [("AWS", VStr "arn:aws:iam::903692715234:root")]);
         ("Action", VStr "s3:PutObject");
         ("Resource", VStr "arn:aws:s3:::audit-logs/AWSLogs/123456789012/*")].

(** A statement without a Sid. *)
Definition example_anonymous_statement : value :=
  VDict [("Effect", VStr "Deny");
         ("Principal", VStr "*");
         ("Action", VStr "s3:DeleteBucket");
         ("Resource", VStr "arn:aws:s3:::audit-logs")].

Definition example_policy (statements : list value) : value :=
  VDict [("Version", VStr "2008-10-17"); ("Statement", VList statements)].

Definition example_trail : trail :=
  {| Name := "audit"; S3BucketName := "old-logs"; S3KeyPrefix := "";
     IncludeGlobalServiceEvents := false; IsLogging := false |}.

(** An account with the bucket "audit-logs" under the given policy, one
    trail in us-west-2 and none in us-east-1, nothing issued yet. *)
Definition example_account (policy : option string)
    (schedule : nat -> call -> option exn) : world :=
  {| caller_arn := "arn:aws:iam::123456789012:user/ops";
     buckets := {[ "audit-logs" := policy ]};
     trails := {[ "us-west-2" := [example_trail] ]};
     cloudtrail_regions := ["us-east-1"; "us-west-2"];
     faults := schedule;
     calls := [];
     log := [];
     help_printed := 0 |}.

Definition no_faults : nat -> call -> option exn := fun _ _ => None.

(** The example account with a policy of these statements on its bucket,
    as text, and no failing request. *)
Definition example_world (statements : list value) : world :=
  example_account (Some (Json.dumps 2 (example_policy statements))) no_faults.

(** Every lookup of a bucket or of its policy is refused with [status]. *)
Definition refuse_lookups (status : Z) : nat -> call -> option exn :=
  fun _ c =>
    match c with
    | GetBucket _ | GetBucketPolicy _ => Some (BotoServerError status)
    | _ => None
    end.

(** ** Vocabulary of the further properties *)

(** How often the character occurs in the string. *)
Fixpoint count_char (c : ascii) (s : string) : nat :=
  match s with
  | EmptyString => 0%nat
  | String a rest =>
      if Ascii.eqb a c then S (count_char c rest) else count_char c rest
  end.

(** Every lookup of a bucket or of its policy fails without an answer. *)
Definition drop_lookups : nat -> call -> option exn :=
  fun _ c =>
    match c with
    | GetBucket _ | GetBucketPolicy _ => Some ConnectionError
    | _ => None
    end.

(** The region a CloudTrail request is directed at; the S3 and IAM requests
    have none. *)
Definition call_region (c : call) : option string :=
  match c with
  | DescribeTrails r => Some r
  | CreateTrail r _ _ _ _ => Some r
  | UpdateTrail r _ _ _ _ => Some r
  | StartLogging r _ => Some r
  | _ => None
  end.

(** The request [ensure_cloudtrail_for_region] issues after the describe,
    for the trail list it got. *)
Definition trail_request (s3_bucket : Bucket) (s3_prefix region_name : string)
    (trail_list : list trail) : call :=
  match trail_list with
  | [] => CreateTrail region_name "Default" (name s3_bucket) s3_prefix true
  | first :: _ =>
      UpdateTrail region_name (Name first) (name s3_bucket) s3_prefix true
  end.

(** Every request to create a trail is refused with [status]. *)
Definition refuse_create_trail (status : Z) : nat -> call -> option exn :=
  fun _ c =>
    match c with
    | CreateTrail _ _ _ _ _ => Some (BotoServerError status)
    | _ => None
    end.

(** Between the two worlds only trails of the given regions may differ (and
    what the run has produced). *)
Definition trails_only (regions : list string) (w w' : world) : Prop :=
  buckets w' = buckets w /\ faults w' = faults w /\
  cloudtrail_regions w' = cloudtrail_regions w /\
  caller_arn w' = caller_arn w /\
  forall other, ~ In other regions -> trails w' !! other = trails w !! other.

(** The first trail of the region delivers to the bucket under the prefix,
    with global service events, and is logging. *)
Definition region_configured (s3_bucket : Bucket) (s3_prefix : string)
    (region_name : string) (w : world) : Prop :=
  exists first rest,
    trails_in region_name w = first :: rest /\
    S3BucketName first = name s3_bucket /\
    S3KeyPrefix first = s3_prefix /\
    IncludeGlobalServiceEvents first = true /\
    IsLogging first = true.

(** The requests of a region whose trail is updated. *)
Definition region_update_calls (s3_bucket : Bucket)
    (s3_prefix region_name : string) (cs : list call) : Prop :=
  exists trail_name,
    cs = [DescribeTrails region_name;
          UpdateTrail region_name trail_name (name s3_bucket) s3_prefix true;
          StartLogging region_name trail_name].

(** The same world seen by a caller with another ARN. *)
Definition with_caller_arn (arn : string) (w : world) : world :=
  {| caller_arn := arn; buckets := buckets w; trails := trails w;
     cloudtrail_regions := cloudtrail_regions w; faults := faults w;
     calls := calls w; log := log w; help_printed := help_printed w |}.

(** ** Basic facts *)

Lemma append_cons (c : ascii) (s t : string) :
  String c s +:+ t = String c (s +:+ t).
Proof. reflexivity. Qed.

Lemma append_empty_l (s : string) : "" +:+ s = s.
Proof. reflexivity. Qed.

Lemma append_empty_r (s : string) : s +:+ "" = s.
Proof.
  induction s as [|c s IH]; [reflexivity|].
  now rewrite append_cons, IH.
Qed.

Lemma strip_prefix_Some (p s r : string) :
  strip_prefix p s = Some r <-> s = p +:+ r.
Proof.
  revert s; induction p as [|a p IH]; intros s; simpl;
    rewrite ?append_empty_l, ?append_cons.
  - split; [now intros [= ->] | now intros ->].
  - destruct s as [|b s]; [split; discriminate|].
    destruct (Ascii.eqb_spec a b) as [->|Hne].
    + rewrite IH. split; [now intros -> | now intros [= ->]].
    + split; [discriminate | intros [= Hab _]; now elim Hne].
Qed.

Lemma strip_prefix_begins (p s : string) :
  (exists r, strip_prefix p s = Some r) <-> begins_with p s.
Proof.
  unfold begins_with; split; intros [r H]; exists r;
    now apply strip_prefix_Some.
Qed.

Lemma re_match_reserved (sid : string) :
  re_match cloudtrail_sid_pattern sid = true <-> reserved_sid sid.
Proof.
  unfold re_match, cloudtrail_sid_pattern, reserved_sid.
  cbn [matches Nat.eqb].
  rewrite orb_true_iff, <- !strip_prefix_begins.
  destruct (strip_prefix "AWSCloudTrailAclCheck" sid) as [r1|];
    destruct (strip_prefix "AWSCloudTrailWrite" sid) as [r2|];
    split; intros H; eauto;
    destruct H as [H | H]; try discriminate; destruct H; discriminate.
Qed.

(** ** The two generated statements *)

Lemma format_aclcheck_resource (b : string) :
  format "arn:aws:s3:::%s" [b] = Ok ("arn:aws:s3:::" +:+ b).
Proof. simpl. now rewrite append_empty_r. Qed.

Lemma format_write_resource (b p a : string) :
  format "arn:aws:s3:::%s%s/AWSLogs/%s/*" [b; p; a]
  = Ok ("arn:aws:s3:::" +:+ b +:+ p +:+ "/AWSLogs/" +:+ a +:+ "/*").
Proof. reflexivity. Qed.

Lemma aclcheck_statement_ok (s3_bucket_name : string) :
  exists statement,
    get_aws_cloudtrail_aclcheck_s3_policy_statement s3_bucket_name
    = Ok statement.
Proof.
  unfold get_aws_cloudtrail_aclcheck_s3_policy_statement.
  rewrite format_aclcheck_resource. cbn [rbind]. now eexists.
Qed.

Lemma write_statement_ok (aws_account_id s3_bucket_name s3_prefix : string) :
  exists statement,
    get_aws_cloudtrail_write_s3_policy_statement aws_account_id s3_bucket_name
      s3_prefix = Ok statement.
Proof.
  unfold get_aws_cloudtrail_write_s3_policy_statement.
  rewrite format_write_resource. cbn [rbind]. now eexists.
Qed.

(** C3: for every account id, bucket name and prefix the write statement is
    built, its Resource is "arn:aws:s3:::" + bucket + prefix + "/AWSLogs/" +
    account id + "/*", and its condition requires the object ACL
    s3:x-amz-acl to be "bucket-owner-full-control". *)
Theorem write_statement_resource (aws_account_id s3_bucket_name s3_prefix : string) :
  exists statement,
    get_aws_cloudtrail_write_s3_policy_statement aws_account_id s3_bucket_name
      s3_prefix = Ok statement /\
    getitem statement "Resource"
    = Ok (VStr ("arn:aws:s3:::" +:+ s3_bucket_name +:+ s3_prefix +:+
               "/AWSLogs/" +:+ aws_account_id +:+ "/*")) /\
    acl_condition statement = Ok (VStr "bucket-owner-full-control").
Proof.
  unfold get_aws_cloudtrail_write_s3_policy_statement.
  rewrite format_write_resource. cbn [rbind].
  eexists; split; [reflexivity|]. split; reflexivity.
Qed.

(** C4: whatever the bucket name, prefix and account id, the ACL-check
    statement and the write statement are built and each lists exactly the
    nine fixed account-root principals, in the same order. *)
Theorem statements_principals (aws_account_id s3_bucket_name s3_prefix : string) :
  exists aclcheck write,
    get_aws_cloudtrail_aclcheck_s3_policy_statement s3_bucket_name
    = Ok aclcheck /\
    get_aws_cloudtrail_write_s3_policy_statement aws_account_id s3_bucket_name
      s3_prefix = Ok write /\
    principals aclcheck = Ok (VList cloudtrail_principals) /\
    principals write = Ok (VList cloudtrail_principals) /\
    length cloudtrail_principals = 9%nat.
Proof.
  unfold get_aws_cloudtrail_aclcheck_s3_policy_statement,
    get_aws_cloudtrail_write_s3_policy_statement.
  rewrite format_aclcheck_resource, format_write_resource. cbn [rbind].
  do 2 eexists. repeat split; reflexivity.
Qed.

(** ** Running computations *)

Ltac run := unfold bind, ret, raise, lift, try_except, logging_info.
Ltac run_in H :=
  unfold bind, ret, raise, lift, try_except, logging_info in H.

Lemma request_calls {A} (c : call) (serve : M A) (w w' : world) (r : result A) :
  (forall v v' r', serve v = (r', v') -> calls v' = calls v) ->
  request c serve w = (r, w') ->
  calls w' = calls w ++ [c].
Proof.
  unfold request; intros Hserve H.
  destruct (faults w (length (calls w)) c).
  - now inversion H.
  - now rewrite (Hserve _ _ _ H).
Qed.

Lemma get_bucket_calls (bucket_name : string) (w w' : world) (r : result Bucket) :
  get_bucket bucket_name w = (r, w') ->
  calls w' = calls w ++ [GetBucket bucket_name] /\
  buckets w' = buckets w /\ trails w' = trails w.
Proof.
  unfold get_bucket, request; intros H.
  destruct (faults w (length (calls w)) (GetBucket bucket_name));
    [now inversion H|].
  cbn in H. destruct (buckets w !! bucket_name); now inversion H.
Qed.

Lemma parse_args_pure (argv : list string) (ns args : Namespace) (w w' : world) :
  parse_args argv ns w = (Ok args, w') -> w' = w.
Proof.
  revert ns. induction argv as [argv IH] using (induction_ltof1 _ (@length _)).
  unfold ltof in IH. intros ns H.
  destruct argv as [|flag rest]; [now inversion H|].
  cbn [parse_args] in H.
  destruct (String.eqb flag "-h" || String.eqb flag "--help");
    [run; cbn in H; discriminate|].
  destruct (String.eqb flag "-b" || String.eqb flag "--bucket").
  { destruct rest as [|v rest']; [discriminate|].
    apply IH in H; [exact H | simpl; lia]. }
  destruct (String.eqb flag "-p" || String.eqb flag "--prefix").
  { destruct rest as [|v rest']; [discriminate|].
    apply IH in H; [exact H | simpl; lia]. }
  discriminate.
Qed.

Lemma create_bucket_calls (bucket_name : string) (w : world) :
  calls (snd (create_bucket bucket_name w))
  = calls w ++ [CreateBucket bucket_name].
Proof.
  unfold create_bucket, request.
  destruct (faults w _ _); [reflexivity|].
  cbn. now destruct (buckets w !! bucket_name).
Qed.

Lemma create_bucket_fresh (bucket_name : string) (w : world) :
  faults w (length (calls w)) (CreateBucket bucket_name) = None ->
  buckets w !! bucket_name = None ->
  create_bucket bucket_name w
  = (Ok {| name := bucket_name |},
     with_buckets (<[bucket_name := None]> (buckets w))
       (with_calls (calls w ++ [CreateBucket bucket_name]) w)).
Proof.
  unfold create_bucket, request. intros -> Hfree. cbn. now rewrite Hfree.
Qed.

(** ** The bucket ensurer *)

(** C7: when the bucket lookup raises, only the GetBucket request has been
    issued so far.  If the error is a 404 the ensurer goes on to issue a
    CreateBucket request, and returns the new bucket when that request is
    served for a free name.  An error with any other status is re-raised at
    once (and no other error is suppressed either), also out of the whole
    run, with nothing issued after the lookup and no bucket or trail
    changed. *)
Theorem ensure_s3_bucket_lookup_error (bucket_name : string) (w w1 : world)
    (e : exn) :
  get_bucket bucket_name w = (Raise e, w1) ->
  calls w1 = calls w ++ [GetBucket bucket_name] /\
  buckets w1 = buckets w /\ trails w1 = trails w /\
  (e = BotoServerError 404 ->
     ensure_s3_bucket bucket_name w
     = create_bucket bucket_name
         (with_log (log w1 ++ ["Bucket does not exist. Creating " +:+ bucket_name]) w1) /\
     calls (snd (ensure_s3_bucket bucket_name w))
     = calls w ++ [GetBucket bucket_name; CreateBucket bucket_name] /\
     (faults w (S (length (calls w))) (CreateBucket bucket_name) = None ->
      buckets w !! bucket_name = None ->
      fst (ensure_s3_bucket bucket_name w) = Ok {| name := bucket_name |} /\
      buckets (snd (ensure_s3_bucket bucket_name w)) !! bucket_name
      = Some None)) /\
  (status e <> Ok 404 ->
     exists e', ensure_s3_bucket bucket_name w = (Raise e', w1) /\
       forall s, e = BotoServerError s -> e' = e) /\
  (forall s argv args,
     e = BotoServerError s -> s <> 404 ->
     fst (parse_args argv parser_defaults w) = Ok args ->
     args_bucket_name args = Some bucket_name ->
     truthy_str bucket_name = true ->
     main argv w = (Raise e, w1)).
Proof.
  intros H.
  destruct (get_bucket_calls _ _ _ _ H) as (Hcalls & Hb & Ht).
  assert (Hf : faults w1 = faults w).
  { unfold get_bucket, request in H.
    destruct (faults w (length (calls w)) (GetBucket bucket_name));
      [now inversion H|].
    cbn in H. destruct (buckets w !! bucket_name); now inversion H. }
  split; [exact Hcalls|]. split; [exact Hb|]. split; [exact Ht|].
  split; [|split].
  - intros ->.
    assert (Hrun : ensure_s3_bucket bucket_name w
                   = create_bucket bucket_name
                       (with_log (log w1 ++ ["Bucket does not exist. Creating "
                                            +:+ bucket_name]) w1)).
    { unfold ensure_s3_bucket. run. now rewrite H. }
    split; [exact Hrun|]. rewrite Hrun. split.
    + rewrite create_bucket_calls. cbn. now rewrite Hcalls, <- app_assoc.
    + intros Hnofault Hfree.
      rewrite create_bucket_fresh; cbn.
      * split; [reflexivity | apply lookup_insert_eq].
      * now rewrite Hf, Hcalls, length_app, Nat.add_1_r.
      * now rewrite Hb.
  - intros Hst. unfold ensure_s3_bucket. run. rewrite H.
    destruct e as [s| | | | | | |c]; cbn;
      try (eexists; split; [reflexivity | intros ? [=]]).
    destruct (Z.eqb_spec s 404) as [->|Hne]; [now elim Hst|].
    cbn. eexists; split; [reflexivity | trivial].
  - intros s argv args -> Hs Hparse Hname Htruthy.
    unfold main. run.
    destruct (parse_args argv parser_defaults w) as [r w0] eqn:Hp.
    cbn in Hparse; subst r.
    apply parse_args_pure in Hp as Hw0; subst w0.
    rewrite Hname, Htruthy.
    unfold ensure_s3_bucket. run. rewrite H. cbn.
    destruct (Z.eqb_spec s 404) as [->|Hne]; [now elim Hs|]. reflexivity.
Qed.

(** ** The command line *)


(** ** The trail enabler *)

Lemma existsb_eqb_In (x : string) (l : list string) :
  In x l -> existsb (String.eqb x) l = true.
Proof.
  intros H. apply existsb_exists. exists x.
  split; [exact H | apply String.eqb_refl].
Qed.

Lemma request_ok {A} (c : call) (serve : M A) (w : world) :
  faults w (length (calls w)) c = None ->
  request c serve w = serve (with_calls (calls w ++ [c]) w).
Proof. unfold request. now intros ->. Qed.

Lemma create_trail_calls (c : CloudTrailConnection)
    (n b p : string) (g : bool) (w w' : world) (r : result unit) :
  create_trail (Some c) n b p g w = (r, w') ->
  calls w' = calls w ++ [CreateTrail (region c) n b p g].
Proof.
  unfold create_trail, method. apply request_calls.
  intros v v' r'. destruct (has_trail _ _); now intros [= _ <-].
Qed.

Lemma update_trail_calls (c : CloudTrailConnection)
    (n b p : string) (g : bool) (w w' : world) (r : result unit) :
  update_trail (Some c) n b p g w = (r, w') ->
  calls w' = calls w ++ [UpdateTrail (region c) n b p g].
Proof.
  unfold update_trail, method. apply request_calls.
  intros v v' r'. destruct (has_trail _ _); now intros [= _ <-].
Qed.

Lemma start_logging_calls (c : CloudTrailConnection) (n : string)
    (w w' : world) (r : result unit) :
  start_logging (Some c) n w = (r, w') ->
  calls w' = calls w ++ [StartLogging (region c) n].
Proof.
  unfold start_logging, method. apply request_calls.
  intros v v' r'. destruct (has_trail _ _); now intros [= _ <-].
Qed.

Lemma describe_trails_ok (c : CloudTrailConnection) (w : world) :
  faults w (length (calls w)) (DescribeTrails (region c)) = None ->
  describe_trails (Some c) w
  = (Ok (trails_in (region c) w),
     with_calls (calls w ++ [DescribeTrails (region c)]) w).
Proof. intros H. unfold describe_trails, method. now rewrite request_ok. Qed.

(** C5: in a CloudTrail region whose describe-trails request is served, an
    empty trail list is followed by one create-trail request for the trail
    "Default" and no update; a non-empty list by one update-trail request for
    the first listed trail's name and no create.  Either request carries the
    bucket name, the key prefix and global service events switched on, and
    the only request that can follow it is the start-logging one. *)
Theorem ensure_cloudtrail_for_region_branch (region_name : string)
    (s3_bucket : Bucket) (s3_prefix : string) (w : world) :
  In region_name (cloudtrail_regions w) ->
  faults w (length (calls w)) (DescribeTrails region_name) = None ->
  (trails_in region_name w = [] ->
   exists tail,
     calls (snd (ensure_cloudtrail_for_region region_name s3_bucket s3_prefix w))
     = calls w ++ DescribeTrails region_name
         :: CreateTrail region_name "Default" (name s3_bucket) s3_prefix true
         :: tail /\
     (tail = [] \/ tail = [StartLogging region_name "Default"])) /\
  (forall first rest,
   trails_in region_name w = first :: rest ->
   exists tail,
     calls (snd (ensure_cloudtrail_for_region region_name s3_bucket s3_prefix w))
     = calls w ++ DescribeTrails region_name
         :: UpdateTrail region_name (Name first) (name s3_bucket) s3_prefix true
         :: tail /\
     (tail = [] \/ tail = [StartLogging region_name (Name first)])).
Proof.
  intros Hin Hnf.
  set (conn := {| region := region_name |}).
  set (w1 := with_calls (calls w ++ [DescribeTrails region_name]) w).
  assert (Hrun : forall l, trails_in region_name w = l ->
            ensure_cloudtrail_for_region region_name s3_bucket s3_prefix w
            = (trail_name <-
                 match l with
                 | [] =>
                     create_trail (Some conn) "Default" (name s3_bucket)
                       s3_prefix true ;;; ret "Default"
                 | first :: _ =>
                     update_trail (Some conn) (Name first) (name s3_bucket)
                       s3_prefix true ;;; ret (Name first)
                 end ;;
               start_logging (Some conn) trail_name) w1).
  { intros l Hl.
    unfold ensure_cloudtrail_for_region, connect_to_region. run.
    rewrite (existsb_eqb_In _ _ Hin).
    rewrite (describe_trails_ok {| region := region_name |} w Hnf).
    cbn [region]. now rewrite Hl. }
  split.
  - intros Hl. rewrite (Hrun _ Hl). run.
    destruct (create_trail (Some conn) "Default" (name s3_bucket) s3_prefix
                true w1) as [r w2] eqn:E.
    apply create_trail_calls in E as Hc.
    destruct r as [[]|e].
    + destruct (start_logging (Some conn) "Default" w2) as [r3 w3] eqn:E3.
      apply start_logging_calls in E3 as Hc3.
      exists [StartLogging region_name "Default"]. split; [|now right].
      cbn. rewrite Hc3, Hc. cbn. now rewrite <- !app_assoc.
    + exists []. split; [|now left]. cbn. rewrite Hc. cbn.
      now rewrite <- !app_assoc.
  - intros first rest Hl. rewrite (Hrun _ Hl). run.
    destruct (update_trail (Some conn) (Name first) (name s3_bucket) s3_prefix
                true w1) as [r w2] eqn:E.
    apply update_trail_calls in E as Hc.
    destruct r as [[]|e].
    + destruct (start_logging (Some conn) (Name first) w2) as [r3 w3] eqn:E3.
      apply start_logging_calls in E3 as Hc3.
      exists [StartLogging region_name (Name first)]. split; [|now right].
      cbn. rewrite Hc3, Hc. cbn. now rewrite <- !app_assoc.
    + exists []. split; [|now left]. cbn. rewrite Hc. cbn.
      now rewrite <- !app_assoc.
Qed.

Lemma trails_in_insert (r : string) (l : list trail) (w : world) :
  trails_in r (with_trails (<[r := l]> (trails w)) w) = l.
Proof. unfold trails_in. cbn. now rewrite lookup_insert_eq. Qed.

Lemma has_trail_update_named (n : string) (f : trail -> trail) (ts : list trail) :
  (forall t, Name (f t) = Name t) ->
  has_trail n (update_named n f ts) = has_trail n ts.
Proof.
  intros Hf. unfold has_trail, update_named.
  induction ts as [|t ts IH]; [reflexivity|]. cbn. rewrite IH. f_equal.
  destruct (String.eqb (Name t) n) eqn:E; [|exact E].
  now rewrite Hf.
Qed.

Lemma has_trail_snoc (n : string) (ts : list trail) (t : trail) :
  Name t = n -> has_trail n (ts ++ [t]) = true.
Proof.
  intros <-. unfold has_trail. rewrite existsb_app. cbn.
  now rewrite String.eqb_refl, orb_true_r.
Qed.

Lemma create_trail_ok (c : CloudTrailConnection) (n b p : string) (g : bool)
    (w : world) :
  faults w (length (calls w)) (CreateTrail (region c) n b p g) = None ->
  has_trail n (trails_in (region c) w) = false ->
  exists w',
    create_trail (Some c) n b p g w = (Ok tt, w') /\
    calls w' = calls w ++ [CreateTrail (region c) n b p g] /\
    same_env w w' /\
    has_trail n (trails_in (region c) w') = true.
Proof.
  intros Hnf Hfree. unfold create_trail, method. rewrite request_ok by exact Hnf.
  change (trails_in (region c) (with_calls _ w)) with (trails_in (region c) w).
  rewrite Hfree. eexists; split; [reflexivity|].
  split; [reflexivity|]. split; [now split|].
  rewrite trails_in_insert. now apply has_trail_snoc.
Qed.

Lemma update_trail_ok (c : CloudTrailConnection) (n b p : string) (g : bool)
    (w : world) :
  faults w (length (calls w)) (UpdateTrail (region c) n b p g) = None ->
  has_trail n (trails_in (region c) w) = true ->
  exists w',
    update_trail (Some c) n b p g w = (Ok tt, w') /\
    calls w' = calls w ++ [UpdateTrail (region c) n b p g] /\
    same_env w w' /\
    has_trail n (trails_in (region c) w') = true.
Proof.
  intros Hnf Hhas. unfold update_trail, method. rewrite request_ok by exact Hnf.
  change (trails_in (region c) (with_calls _ w)) with (trails_in (region c) w).
  rewrite Hhas. eexists; split; [reflexivity|].
  split; [reflexivity|]. split; [now split|].
  rewrite trails_in_insert, has_trail_update_named; [exact Hhas | reflexivity].
Qed.

Lemma start_logging_ok (c : CloudTrailConnection) (n : string) (w : world) :
  faults w (length (calls w)) (StartLogging (region c) n) = None ->
  has_trail n (trails_in (region c) w) = true ->
  exists w',
    start_logging (Some c) n w = (Ok tt, w') /\
    calls w' = calls w ++ [StartLogging (region c) n] /\
    same_env w w'.
Proof.
  intros Hnf Hhas. unfold start_logging, method. rewrite request_ok by exact Hnf.
  change (trails_in (region c) (with_calls _ w)) with (trails_in (region c) w).
  rewrite Hhas. eexists; split; [reflexivity|].
  split; [reflexivity | now split].
Qed.

Lemma ensure_cloudtrail_for_region_ok (region_name : string)
    (s3_bucket : Bucket) (s3_prefix : string) (w : world) :
  fault_free w ->
  In region_name (cloudtrail_regions w) ->
  exists w' cs,
    ensure_cloudtrail_for_region region_name s3_bucket s3_prefix w
    = (Ok tt, w') /\
    calls w' = calls w ++ cs /\
    region_calls s3_bucket s3_prefix region_name cs /\
    same_env w w'.
Proof.
  intros Hff Hin.
  unfold ensure_cloudtrail_for_region, connect_to_region. run.
  rewrite (existsb_eqb_In _ _ Hin).
  rewrite (describe_trails_ok {| region := region_name |} w (Hff _ _)).
  cbn [region].
  set (conn := {| region := region_name |}).
  set (w1 := with_calls (calls w ++ [DescribeTrails region_name]) w).
  assert (Hff1 : fault_free w1) by exact Hff.
  destruct (trails_in region_name w) as [|first rest] eqn:Hl.
  - destruct (create_trail_ok conn "Default" (name s3_bucket) s3_prefix true w1)
      as (w2 & -> & Hc2 & [Hf2 Hr2] & Hhas); [apply Hff1
      | change (has_trail "Default" (trails_in region_name w) = false);
        now rewrite Hl |].
    destruct (start_logging_ok conn "Default" w2)
      as (w3 & -> & Hc3 & [Hf3 Hr3]); [rewrite Hf2; apply Hff1 | exact Hhas |].
    exists w3. eexists. split; [reflexivity|]. split; [|split].
    + rewrite Hc3, Hc2. cbn. rewrite <- !app_assoc. reflexivity.
    + exists "Default". now left.
    + split; [now rewrite Hf3, Hf2 | now rewrite Hr3, Hr2].
  - assert (Hhas0 : has_trail (Name first) (trails_in region_name w1) = true).
    { change (trails_in region_name w1) with (trails_in region_name w).
      rewrite Hl. unfold has_trail. cbn. now rewrite String.eqb_refl. }
    destruct (update_trail_ok conn (Name first) (name s3_bucket) s3_prefix true w1)
      as (w2 & -> & Hc2 & [Hf2 Hr2] & Hhas); [apply Hff1 | exact Hhas0 |].
    destruct (start_logging_ok conn (Name first) w2)
      as (w3 & -> & Hc3 & [Hf3 Hr3]); [rewrite Hf2; apply Hff1 | exact Hhas |].
    exists w3. eexists. split; [reflexivity|]. split; [|split].
    + rewrite Hc3, Hc2. cbn. rewrite <- !app_assoc. reflexivity.
    + exists (Name first). now right.
    + split; [now rewrite Hf3, Hf2 | now rewrite Hr3, Hr2].
Qed.

Lemma for_each_region_ok (region_names : list string) (s3_bucket : Bucket)
    (s3_prefix : string) (w : world) :
  fault_free w ->
  (forall r, In r region_names -> In r (cloudtrail_regions w)) ->
  exists w' chunks,
    for_each_region region_names s3_bucket s3_prefix w = (Ok tt, w') /\
    calls w' = calls w ++ concat chunks /\
    Forall2 (region_calls s3_bucket s3_prefix) region_names chunks.
Proof.
  revert w. induction region_names as [|r rs IH]; intros w Hff Hsub.
  - exists w, []. cbn. rewrite app_nil_r. repeat split. constructor.
  - cbn [for_each_region]. run.
    set (w0 := with_log _ w).
    destruct (ensure_cloudtrail_for_region_ok r s3_bucket s3_prefix w0)
      as (w1 & cs & -> & Hc1 & Hreg & [Hf1 Hr1]);
      [exact Hff | apply Hsub; now left |].
    destruct (IH w1) as (w2 & chunks & -> & Hc2 & Hall).
    + intros n c. rewrite Hf1. apply Hff.
    + intros r' Hr'. rewrite Hr1. apply Hsub. now right.
    + exists w2, (cs :: chunks). split; [reflexivity|]. split.
      * rewrite Hc2, Hc1. cbn. now rewrite <- app_assoc.
      * now constructor.
Qed.

(** C6: when no request fails, the trail enabler finishes, and the requests
    it has issued are, region after region in the order of the region list
    and once per listed region, a describe, one create or update, and one
    start-logging on that same trail, each of them directed at the region
    being processed. *)
Theorem ensure_cloudtrail_region_coverage (s3_bucket : Bucket)
    (s3_prefix : string) (w : world) :
  fault_free w ->
  exists w' chunks,
    ensure_cloudtrail s3_bucket s3_prefix w = (Ok tt, w') /\
    calls w' = calls w ++ concat chunks /\
    Forall2 (region_calls s3_bucket s3_prefix) (cloudtrail_regions w) chunks.
Proof.
  intros Hff. unfold ensure_cloudtrail, get_cloudtrail_regions, get_regions.
  run. now apply for_each_region_ok.
Qed.

(** ** The policy composer *)

Lemma log_only_refl (w : world) : log_only w w.
Proof. exists []. destruct w; cbn. now rewrite app_nil_r. Qed.

Lemma log_only_step (msg : string) (w w' : world) :
  log_only (with_log (log w ++ [msg]) w) w' -> log_only w w'.
Proof.
  intros [msgs ->]. exists (msg :: msgs). cbn. now rewrite <- app_assoc.
Qed.

Lemma sid_str_cases (st : value) :
  (exists sid, rbind (getitem st "Sid") as_str = Ok sid /\
               getitem st "Sid" = Ok (VStr sid)) \/
  (exists e, rbind (getitem st "Sid") as_str = Raise e /\
             (e = KeyError "Sid" \/ e = TypeError) /\ ~ has_str_sid st).
Proof.
  unfold has_str_sid.
  destruct st as [| | | |items|items]; cbn;
    try (right; eexists; split; [reflexivity|]; split;
         [now right | intros [? [=]]]).
  destruct (lookup_item "Sid" items) as [v|]; cbn.
  - destruct v; cbn;
      try (right; eexists; split; [reflexivity|]; split;
           [now right | intros [? [=]]]).
    left. eexists; split; reflexivity.
  - right. eexists; split; [reflexivity|]. split;
      [now left | intros [? [=]]].
Qed.

(** The loop either carries forward, in order, the statements that the
    pattern does not match, or stops at the first statement without a string
    Sid; it touches nothing but the log. *)
Lemma strip_cloudtrail_statements_spec (existing statements : list value)
    (w : world) :
  match strip_cloudtrail_statements existing statements w with
  | (Ok kept, w') =>
      Forall has_str_sid existing /\
      kept = statements ++ List.filter carried_forward existing /\
      log_only w w'
  | (Raise e, w') =>
      ~ Forall has_str_sid existing /\
      (e = KeyError "Sid" \/ e = TypeError) /\
      log_only w w'
  end.
Proof.
  revert statements w. induction existing as [|st rest IH]; intros statements w.
  - cbn. rewrite app_nil_r. repeat split; [constructor | apply log_only_refl].
  - cbn [strip_cloudtrail_statements List.filter]. unfold carried_forward at 1.
    run.
    destruct (sid_str_cases st) as [(sid & -> & Hsid) | (e & -> & He & Hno)].
    + destruct (re_match cloudtrail_sid_pattern sid); cbn [negb].
      * specialize (IH statements (with_log (log w ++ ["Stripping out policy Sid: " +:+ sid]) w)).
        destruct (strip_cloudtrail_statements rest statements _) as [[kept|e] w'];
          destruct IH as (Hall & Hk & Hlog).
        -- repeat split; [constructor; [now exists sid | exact Hall] | exact Hk
                          | now apply log_only_step in Hlog].
        -- repeat split; [now intros H; inversion H | exact Hk
                          | now apply log_only_step in Hlog].
      * specialize (IH (statements ++ [st])
                       (with_log (log w ++ ["Maintaining policy Sid: " +:+ sid]) w)).
        destruct (strip_cloudtrail_statements rest _ _) as [[kept|e] w'];
          destruct IH as (Hall & Hk & Hlog).
        -- repeat split; [constructor; [now exists sid | exact Hall]
                          | now rewrite Hk, <- app_assoc
                          | now apply log_only_step in Hlog].
        -- repeat split; [now intros H; inversion H | exact Hk
                          | now apply log_only_step in Hlog].
    + repeat split; [now intros H; inversion H | exact He | apply log_only_refl].
Qed.

Lemma get_policy_world (s3_bucket : Bucket) (w : world) :
  snd (get_policy s3_bucket w)
  = with_calls (calls w ++ [GetBucketPolicy (name s3_bucket)]) w.
Proof.
  unfold get_policy, request.
  destruct (faults w _ _); [reflexivity|]. cbn.
  now destruct (buckets w !! name s3_bucket) as [[?|]|].
Qed.




(** The end of [ensure_bucket_policy], from the comment "append cloudtrail
    statements" on, for the statement list collected so far. *)
Lemma ensure_bucket_policy_eq (s3_bucket : Bucket) (s3_prefix : string) :
  ensure_bucket_policy s3_bucket s3_prefix
  = (existing_bucket_policy_str <-
       try_except
         (p <- get_policy s3_bucket ;; ret (Some p))
         (fun e =>
            s <- lift (status e) ;;
            if negb (s =? 404) then raise e else ret None) ;;
     statements <-
       match existing_bucket_policy_str with
       | Some text =>
           if truthy_str text then
             logging_info
               ("Existing bucket policy found for bucket " +:+ name s3_bucket) ;;;
             existing_bucket_policy <- lift (json_loads text) ;;
             existing <-
               lift (rbind (getitem existing_bucket_policy "Statement") iter) ;;
             strip_cloudtrail_statements existing []
           else ret []
       | None => ret []
       end ;;
     append_cloudtrail_statements s3_bucket s3_prefix statements).
Proof. reflexivity. Qed.

Lemma get_aws_account_id_run (w : world) :
  get_aws_account_id w
  = match faults w (length (calls w)) GetUser with
    | Some e => (Raise e, with_calls (calls w ++ [GetUser]) w)
    | None => (index (split ":" (caller_arn w)) 4,
               with_calls (calls w ++ [GetUser]) w)
    end.
Proof.
  unfold get_aws_account_id, get_user_arn, request. run.
  now destruct (faults w _ _).
Qed.




Lemma ensure_bucket_policy_existing (s3_bucket : Bucket) (s3_prefix : string)
    (w w1 : world) (text : string) (doc : value) (existing : list value) :
  get_policy s3_bucket w = (Ok text, w1) ->
  truthy_str text = true ->
  json_loads text = Ok doc ->
  rbind (getitem doc "Statement") iter = Ok existing ->
  ensure_bucket_policy s3_bucket s3_prefix w
  = (statements <- strip_cloudtrail_statements existing [] ;;
     append_cloudtrail_statements s3_bucket s3_prefix statements)
      (with_log (log w1 ++ ["Existing bucket policy found for bucket "
                           +:+ name s3_bucket]) w1).
Proof.
  intros H Ht Hdoc Hex. rewrite ensure_bucket_policy_eq. run.
  now rewrite H, Ht, Hdoc, Hex.
Qed.

Lemma carried_forward_iff (st : value) (sid : string) :
  getitem st "Sid" = Ok (VStr sid) ->
  carried_forward st = true <-> ~ reserved_sid sid.
Proof.
  intros Hsid. unfold carried_forward. rewrite Hsid. cbn [rbind as_str].
  rewrite <- re_match_reserved.
  destruct (re_match cloudtrail_sid_pattern sid); cbn [negb]; split.
  - intros H. discriminate H.
  - intros H. now elim H.
  - intros _ H. discriminate H.
  - reflexivity.
Qed.


(** C10: with an existing policy, the composer can only succeed when every
    existing statement has a "Sid" that is a string.  A statement without one
    stops the run in the loop with a KeyError or a TypeError, after the
    policy fetch and before any policy is set.  When all statements have a
    string Sid the loop itself always completes. *)
Theorem ensure_bucket_policy_requires_sid (s3_bucket : Bucket)
    (s3_prefix : string) (w w1 : world) (text : string) (doc : value)
    (existing : list value) :
  get_policy s3_bucket w = (Ok text, w1) ->
  truthy_str text = true ->
  json_loads text = Ok doc ->
  rbind (getitem doc "Statement") iter = Ok existing ->
  (fst (ensure_bucket_policy s3_bucket s3_prefix w) = Ok tt ->
   Forall has_str_sid existing) /\
  (forall st, In st existing -> ~ has_str_sid st ->
   exists e w',
     ensure_bucket_policy s3_bucket s3_prefix w = (Raise e, w') /\
     (e = KeyError "Sid" \/ e = TypeError) /\
     calls w' = calls w ++ [GetBucketPolicy (name s3_bucket)] /\
     buckets w' = buckets w) /\
  (Forall has_str_sid existing ->
   forall statements v, exists kept v',
     strip_cloudtrail_statements existing statements v = (Ok kept, v')).
Proof.
  intros H Ht Hdoc Hex.
  rewrite (ensure_bucket_policy_existing _ _ _ _ _ _ _ H Ht Hdoc Hex).
  assert (Hw1 : w1 = with_calls (calls w ++ [GetBucketPolicy (name s3_bucket)]) w).
  { rewrite <- get_policy_world. now rewrite H. }
  unfold bind.
  pose proof (strip_cloudtrail_statements_spec existing []
                (with_log (log w1 ++ ["Existing bucket policy found for bucket "
                                     +:+ name s3_bucket]) w1)) as Hloop.
  destruct (strip_cloudtrail_statements existing [] _) as [[kept|e] w2].
  - destruct Hloop as (Hall & _ & _). split; [now intros _|]. split.
    + intros st Hin Hno. elim Hno.
      now apply (proj1 (List.Forall_forall _ _) Hall).
    + intros _ statements v.
      pose proof (strip_cloudtrail_statements_spec existing statements v) as Hv.
      destruct (strip_cloudtrail_statements existing statements v)
        as [[kept'|e] v']; [now exists kept', v'|].
      now destruct Hv as (Hnall & _).
  - destruct Hloop as (Hnall & He & [msgs ->]). split; [intros [=]|]. split.
    + intros st Hin Hno. exists e. eexists. split; [reflexivity|].
      split; [exact He|]. subst w1. now cbn.
    + intros Hall. now elim Hnall.
Qed.

(** ** Running the composer twice *)




Lemma aclcheck_statement_sid (s3_bucket_name : string) (st : value) :
  get_aws_cloudtrail_aclcheck_s3_policy_statement s3_bucket_name = Ok st ->
  getitem st "Sid" = Ok (VStr "AWSCloudTrailAclCheck20131101").
Proof.
  unfold get_aws_cloudtrail_aclcheck_s3_policy_statement.
  rewrite format_aclcheck_resource. cbn [rbind]. now intros [= <-].
Qed.

Lemma write_statement_sid (aws_account_id s3_bucket_name s3_prefix : string)
    (st : value) :
  get_aws_cloudtrail_write_s3_policy_statement aws_account_id s3_bucket_name
    s3_prefix = Ok st ->
  getitem st "Sid" = Ok (VStr "AWSCloudTrailWrite20131101").
Proof.
  unfold get_aws_cloudtrail_write_s3_policy_statement.
  rewrite format_write_resource. cbn [rbind]. now intros [= <-].
Qed.

Lemma reserved_aclcheck_sid : reserved_sid "AWSCloudTrailAclCheck20131101".
Proof. left. now exists "20131101". Qed.

Lemma reserved_write_sid : reserved_sid "AWSCloudTrailWrite20131101".
Proof. right. now exists "20131101". Qed.

Lemma carried_forward_reserved (st : value) (sid : string) :
  getitem st "Sid" = Ok (VStr sid) -> reserved_sid sid ->
  carried_forward st = false.
Proof.
  intros Hsid Hres. destruct (carried_forward st) eqn:E; [|reflexivity].
  now apply (carried_forward_iff st sid Hsid) in E.
Qed.

Lemma carried_forward_sid_is (st : value) (sid : string) :
  carried_forward st = true -> reserved_sid sid -> sid_is sid st = false.
Proof.
  intros Hcf Hres. unfold sid_is.
  destruct (getitem st "Sid") as [[| | |s| |]|] eqn:Hsid; try reflexivity.
  destruct (String.eqb_spec s sid) as [->|]; [|reflexivity].
  now rewrite (carried_forward_reserved st sid Hsid Hres) in Hcf.
Qed.





(** ** The identity lookup *)

Lemma split_length (sep : ascii) (s : string) :
  length (split sep s) = S (count_char sep s).
Proof.
  induction s as [|c s IH]; [reflexivity|]. cbn [split count_char].
  destruct (Ascii.eqb c sep); cbn [length]; [now rewrite IH|].
  destruct (split sep s) as [|field fields]; [discriminate IH | exact IH].
Qed.

Lemma split_field (sep : ascii) (field s : string) :
  count_char sep field = 0%nat ->
  split sep (field +:+ String sep s) = field :: split sep s.
Proof.
  induction field as [|c field IH]; intros Hno.
  - rewrite append_empty_l. cbn [split]. now rewrite Ascii.eqb_refl.
  - rewrite append_cons. cbn [split]. cbn [count_char] in Hno.
    destruct (Ascii.eqb c sep); [discriminate Hno|].
    now rewrite (IH Hno).
Qed.

(** X1: when the GetUser request is served and the caller's ARN reads
    f0:f1:f2:f3:account:resource, with no colon inside the first five
    fields, the identity lookup returns the account field; it has issued
    that one request and changed nothing else. *)
Theorem get_aws_account_id_field (w : world)
    (f0 f1 f2 f3 account resource : string) :
  faults w (length (calls w)) GetUser = None ->
  count_char ":" f0 = 0%nat -> count_char ":" f1 = 0%nat ->
  count_char ":" f2 = 0%nat -> count_char ":" f3 = 0%nat ->
  count_char ":" account = 0%nat ->
  caller_arn w
  = f0 +:+ ":" +:+ f1 +:+ ":" +:+ f2 +:+ ":" +:+ f3 +:+ ":" +:+ account
    +:+ ":" +:+ resource ->
  get_aws_account_id w = (Ok account, with_calls (calls w ++ [GetUser]) w).
Proof.
  intros Hnf H0 H1 H2 H3 H4 Harn.
  rewrite get_aws_account_id_run, Hnf, Harn.
  rewrite !append_cons, !append_empty_l.
  rewrite !split_field by assumption. reflexivity.
Qed.

(** X2: when the GetUser request is served, the identity lookup succeeds
    exactly when the caller's ARN has at least four colons; with fewer it
    raises IndexError.  Either way GetUser is the only request issued. *)
Theorem get_aws_account_id_colons (w : world) :
  faults w (length (calls w)) GetUser = None ->
  (count_char ":" (caller_arn w) < 4 ->
   get_aws_account_id w
   = (Raise IndexError, with_calls (calls w ++ [GetUser]) w))%nat /\
  (4 <= count_char ":" (caller_arn w) ->
   exists account,
     get_aws_account_id w
     = (Ok account, with_calls (calls w ++ [GetUser]) w))%nat.
Proof.
  intros Hnf. rewrite get_aws_account_id_run, Hnf. unfold index.
  pose proof (split_length ":" (caller_arn w)) as Hlen.
  split; intros Hc.
  - destruct (nth_error (split ":" (caller_arn w)) 4) as [x|] eqn:E;
      [|reflexivity].
    assert (4 < length (split ":" (caller_arn w)))%nat
      by (apply nth_error_Some; now rewrite E).
    lia.
  - destruct (nth_error (split ":" (caller_arn w)) 4) as [x|] eqn:E;
      [now exists x|].
    apply nth_error_None in E. lia.
Qed.

(** ** More on the bucket ensurer *)

(** X3: when the lookup is served and the bucket exists, the ensurer
    returns it after that one request: nothing is created, logged or
    changed. *)
Theorem ensure_s3_bucket_existing (bucket_name : string) (w : world) :
  faults w (length (calls w)) (GetBucket bucket_name) = None ->
  is_Some (buckets w !! bucket_name) ->
  ensure_s3_bucket bucket_name w
  = (Ok {| name := bucket_name |},
     with_calls (calls w ++ [GetBucket bucket_name]) w).
Proof.
  intros Hnf [pol Hpol]. unfold ensure_s3_bucket, get_bucket. run.
  rewrite request_ok by exact Hnf. cbn. now rewrite Hpol.
Qed.

(** X4: whenever the ensurer returns a bucket, it is the bucket of the
    requested name and it exists afterwards; the requests issued are the
    lookup alone or the lookup followed by one create; no other bucket and
    no trail has changed, and a bucket that was there before keeps its
    policy. *)
Theorem ensure_s3_bucket_returns (bucket_name : string) (w w' : world)
    (b : Bucket) :
  ensure_s3_bucket bucket_name w = (Ok b, w') ->
  name b = bucket_name /\
  is_Some (buckets w' !! bucket_name) /\
  (calls w' = calls w ++ [GetBucket bucket_name] \/
   calls w' = calls w ++ [GetBucket bucket_name; CreateBucket bucket_name]) /\
  (forall other, other <> bucket_name ->
                 buckets w' !! other = buckets w !! other) /\
  (is_Some (buckets w !! bucket_name) -> buckets w' = buckets w) /\
  trails w' = trails w.
Proof.
  unfold ensure_s3_bucket, get_bucket, create_bucket, request. run.
  destruct (faults w (length (calls w)) (GetBucket bucket_name)) as [e|].
  - destruct e as [s| | | | | | |c]; cbn; try discriminate.
    destruct (Z.eqb_spec s 404) as [->|Hne]; cbn; [|discriminate].
    destruct (faults w _ _); [discriminate|].
    destruct (buckets w !! bucket_name) as [pol|] eqn:Hpol; [discriminate|].
    intros [= <- <-]. cbn. split; [reflexivity|].
    split; [rewrite lookup_insert_eq; now eexists|].
    split; [right; now rewrite <- app_assoc|].
    split; [intros other Hne; now rewrite lookup_insert_ne|].
    split; [intros [? [=]] | reflexivity].
  - cbn. destruct (buckets w !! bucket_name) as [pol|] eqn:Hpol; cbn.
    + intros [= <- <-]. cbn. rewrite Hpol. repeat split; eauto.
    + destruct (faults w _ _); [discriminate|]. cbn. rewrite Hpol.
      intros [= <- <-]. cbn. split; [reflexivity|].
      split; [rewrite lookup_insert_eq; now eexists|].
      split; [right; now rewrite <- app_assoc|].
      split; [intros other Hne; now rewrite lookup_insert_ne|].
      split; [intros [? [=]] | reflexivity].
Qed.

(** X5: a lookup error that carries no status (any exception other than a
    server error, a lost connection for one) is not re-raised: reading its
    status in the handler raises AttributeError instead, in the bucket
    ensurer and in the policy composer alike, and nothing more is issued. *)
Theorem lookup_error_without_status (e : exn) :
  is_Exception e = true ->
  (forall s, e <> BotoServerError s) ->
  (forall bucket_name w w1,
     get_bucket bucket_name w = (Raise e, w1) ->
     ensure_s3_bucket bucket_name w = (Raise (AttributeError "status"), w1)) /\
  (forall s3_bucket s3_prefix w w1,
     get_policy s3_bucket w = (Raise e, w1) ->
     ensure_bucket_policy s3_bucket s3_prefix w
     = (Raise (AttributeError "status"), w1)).
Proof.
  intros Hexn Hno. split.
  - intros bucket_name w w1 H. unfold ensure_s3_bucket. run. rewrite H, Hexn.
    destruct e as [s| | | | | | |c]; try reflexivity; now elim (Hno s).
  - intros s3_bucket s3_prefix w w1 H. rewrite ensure_bucket_policy_eq. run.
    rewrite H, Hexn.
    destruct e as [s| | | | | | |c]; try reflexivity; now elim (Hno s).
Qed.

(** ** More on the generated statements *)

(** X6: the two statements the tool generates are the tool's own for the
    merge loop: whatever the bucket name, prefix and account id, the loop
    drops both and leaves the list it was collecting as it was. *)
Theorem generated_statements_are_stripped
    (aws_account_id s3_bucket_name s3_prefix : string)
    (statements : list value) (w : world) :
  exists aclcheck write w',
    get_aws_cloudtrail_aclcheck_s3_policy_statement s3_bucket_name
    = Ok aclcheck /\
    get_aws_cloudtrail_write_s3_policy_statement aws_account_id s3_bucket_name
      s3_prefix = Ok write /\
    strip_cloudtrail_statements [aclcheck; write] statements w
    = (Ok statements, w').
Proof.
  destruct (aclcheck_statement_ok s3_bucket_name) as (aclcheck & Hacl).
  destruct (write_statement_ok aws_account_id s3_bucket_name s3_prefix)
    as (write & Hwr).
  exists aclcheck, write.
  pose proof (strip_cloudtrail_statements_spec [aclcheck; write] statements w)
    as Hloop.
  pose proof (aclcheck_statement_sid _ _ Hacl) as Hsa.
  pose proof (write_statement_sid _ _ _ _ Hwr) as Hsw.
  destruct (strip_cloudtrail_statements [aclcheck; write] statements w)
    as [[kept|e] w'].
  - destruct Hloop as (_ & -> & _). exists w'.
    split; [exact Hacl|]. split; [exact Hwr|]. cbn [List.filter].
    rewrite (carried_forward_reserved _ _ Hsa reserved_aclcheck_sid).
    rewrite (carried_forward_reserved _ _ Hsw reserved_write_sid).
    now rewrite app_nil_r.
  - destruct Hloop as (Hnall & _). elim Hnall.
    repeat constructor; eexists; eassumption.
Qed.

(** X7: the ACL-check statement allows s3:GetBucketAcl on the bucket itself,
    "arn:aws:s3:::" followed by the bucket name, and, unlike the write
    statement, carries no Condition. *)
Theorem aclcheck_statement_resource (s3_bucket_name : string) :
  exists statement,
    get_aws_cloudtrail_aclcheck_s3_policy_statement s3_bucket_name
    = Ok statement /\
    getitem statement "Effect" = Ok (VStr "Allow") /\
    getitem statement "Action" = Ok (VStr "s3:GetBucketAcl") /\
    getitem statement "Resource" = Ok (VStr ("arn:aws:s3:::" +:+ s3_bucket_name)) /\
    getitem statement "Condition" = Raise (KeyError "Condition").
Proof.
  unfold get_aws_cloudtrail_aclcheck_s3_policy_statement.
  rewrite format_aclcheck_resource. cbn [rbind].
  eexists. split; [reflexivity|]. repeat split.
Qed.

(** ** More on the policy composer *)

Lemma log_only_frame (w w' : world) :
  log_only w w' ->
  calls w' = calls w /\ buckets w' = buckets w /\ trails w' = trails w /\
  faults w' = faults w /\ caller_arn w' = caller_arn w.
Proof. intros [msgs ->]. now cbn. Qed.

Lemma set_policy_any (s3_bucket : Bucket) (policy : string) (v v' : world)
    (r : result unit) :
  set_policy s3_bucket policy v = (r, v') ->
  trails v' = trails v /\
  calls v' = calls v ++ [PutBucketPolicy (name s3_bucket) policy] /\
  ((r = Ok tt /\
    buckets v' = <[name s3_bucket := Some policy]> (buckets v)) \/
   (exists e, r = Raise e /\ buckets v' = buckets v)).
Proof.
  unfold set_policy, request.
  destruct (faults v _ _) as [e|].
  - intros [= <- <-]. repeat split. right. now exists e.
  - cbn. destruct (buckets v !! name s3_bucket); intros [= <- <-]; cbn;
      repeat split; [now left | right; now eexists].
Qed.

Lemma append_cloudtrail_statements_served (s3_bucket : Bucket)
    (s3_prefix aws_account_id : string) (statements : list value) (v : world) :
  faults v (length (calls v)) GetUser = None ->
  index (split ":" (caller_arn v)) 4 = Ok aws_account_id ->
  exists aclcheck write v2,
    get_aws_cloudtrail_aclcheck_s3_policy_statement (name s3_bucket)
    = Ok aclcheck /\
    get_aws_cloudtrail_write_s3_policy_statement aws_account_id
      (name s3_bucket) s3_prefix = Ok write /\
    append_cloudtrail_statements s3_bucket s3_prefix statements v
    = set_policy s3_bucket
        (json_dumps 2 (new_policy (statements ++ [aclcheck; write]))) v2 /\
    log_only (with_calls (calls v ++ [GetUser]) v) v2.
Proof.
  intros Hnf Harn.
  destruct (aclcheck_statement_ok (name s3_bucket)) as (aclcheck & Hacl).
  destruct (write_statement_ok aws_account_id (name s3_bucket) s3_prefix)
    as (write & Hwr).
  exists aclcheck, write. eexists. split; [exact Hacl|]. split; [exact Hwr|].
  unfold append_cloudtrail_statements. run. rewrite Hacl.
  rewrite get_aws_account_id_run. cbn [faults calls caller_arn with_log].
  rewrite Hnf, Harn, Hwr. split; [reflexivity|].
  exists ["Adding new CloudTrail ACL Check S3 Bucket Policy";
          "Adding new CloudTrail Write S3 Bucket Policy"].
  unfold with_log, with_calls. cbn. now rewrite <- app_assoc.
Qed.

(** The end of the composer in any world: it stops at the identity lookup
    with nothing written, or issues the one policy write, which either is
    served and replaces the bucket's policy or fails and changes nothing. *)
Lemma append_cloudtrail_statements_any (s3_bucket : Bucket)
    (s3_prefix : string) (statements : list value) (v v' : world)
    (r : result unit) :
  append_cloudtrail_statements s3_bucket s3_prefix statements v = (r, v') ->
  trails v' = trails v /\
  ((exists e, r = Raise e /\ calls v' = calls v ++ [GetUser] /\
              buckets v' = buckets v /\
              (faults v (length (calls v)) GetUser = None ->
               index (split ":" (caller_arn v)) 4 = Raise e)) \/
   (exists aws_account_id aclcheck write,
      index (split ":" (caller_arn v)) 4 = Ok aws_account_id /\
      get_aws_cloudtrail_aclcheck_s3_policy_statement (name s3_bucket)
      = Ok aclcheck /\
      get_aws_cloudtrail_write_s3_policy_statement aws_account_id
        (name s3_bucket) s3_prefix = Ok write /\
      calls v'
      = calls v ++
        [GetUser;
         PutBucketPolicy (name s3_bucket)
           (json_dumps 2 (new_policy (statements ++ [aclcheck; write])))] /\
      ((r = Ok tt /\
        buckets v'
        = <[name s3_bucket :=
              Some (json_dumps 2
                      (new_policy (statements ++ [aclcheck; write])))]>
            (buckets v)) \/
       (exists e, r = Raise e /\ buckets v' = buckets v)))).
Proof.
  intros H.
  destruct (faults v (length (calls v)) GetUser) as [e|] eqn:Hnf.
  { unfold append_cloudtrail_statements in H. run_in H.
    destruct (aclcheck_statement_ok (name s3_bucket)) as (aclcheck & Hacl).
    rewrite Hacl, get_aws_account_id_run in H. cbn [faults calls with_log] in H.
    rewrite Hnf in H. injection H as <- <-.
    split; [reflexivity|]. left. exists e. repeat split. discriminate. }
  destruct (index (split ":" (caller_arn v)) 4) as [aws_account_id|e] eqn:Harn.
  2:{ unfold append_cloudtrail_statements in H. run_in H.
      destruct (aclcheck_statement_ok (name s3_bucket)) as (aclcheck & Hacl).
      rewrite Hacl, get_aws_account_id_run in H.
      cbn [faults calls caller_arn with_log] in H.
      rewrite Hnf, Harn in H. injection H as <- <-.
      split; [reflexivity|]. left. exists e. repeat split. }
  destruct (append_cloudtrail_statements_served s3_bucket s3_prefix
              aws_account_id statements v Hnf Harn)
    as (aclcheck & write & v2 & Hacl & Hwr & Hrun & Hlog).
  rewrite Hrun in H.
  apply log_only_frame in Hlog as (Hc2 & Hb2 & Ht2 & _).
  apply set_policy_any in H as (Ht & Hc & Hb).
  split; [now rewrite Ht, Ht2|]. right.
  exists aws_account_id, aclcheck, write.
  split; [reflexivity|]. split; [exact Hacl|]. split; [exact Hwr|]. split.
  - rewrite Hc, Hc2. cbn. now rewrite <- app_assoc.
  - destruct Hb as [[-> Hb] | (e & -> & Hb)].
    + left. split; [reflexivity|]. now rewrite Hb, Hb2.
    + right. exists e. split; [reflexivity|]. now rewrite Hb, Hb2.
Qed.

(** The composer in any world: after the policy fetch it only adds log lines
    until it either stops with an exception or reaches its last lines. *)
Lemma ensure_bucket_policy_any (s3_bucket : Bucket) (s3_prefix : string)
    (w w' : world) (r : result unit) :
  ensure_bucket_policy s3_bucket s3_prefix w = (r, w') ->
  (exists e, r = Raise e /\
     log_only (with_calls (calls w ++ [GetBucketPolicy (name s3_bucket)]) w) w') \/
  (exists statements v,
     log_only (with_calls (calls w ++ [GetBucketPolicy (name s3_bucket)]) w) v /\
     append_cloudtrail_statements s3_bucket s3_prefix statements v = (r, w')).
Proof.
  rewrite ensure_bucket_policy_eq. run. intros H.
  pose proof (get_policy_world s3_bucket w) as Hw1.
  destruct (get_policy s3_bucket w) as [r0 w1]. cbn in Hw1. subst w1.
  set (w1 := with_calls (calls w ++ [GetBucketPolicy (name s3_bucket)]) w) in *.
  destruct r0 as [text|e].
  - destruct (truthy_str text).
    + destruct (json_loads text) as [doc|e];
        [|injection H as <- <-; left; eexists; split;
          [reflexivity | now exists ["Existing bucket policy found for bucket "
                                     +:+ name s3_bucket]]].
      destruct (rbind (getitem doc "Statement") iter) as [existing|e];
        [|injection H as <- <-; left; eexists; split;
          [reflexivity | now exists ["Existing bucket policy found for bucket "
                                     +:+ name s3_bucket]]].
      match type of H with
      | context [strip_cloudtrail_statements existing [] ?v] =>
          pose proof (strip_cloudtrail_statements_spec existing [] v) as Hloop;
          destruct (strip_cloudtrail_statements existing [] v) as [[kept|e] v']
      end.
      * destruct Hloop as (_ & _ & Hlog). right. exists kept, v'.
        split; [now apply log_only_step in Hlog | exact H].
      * destruct Hloop as (_ & _ & Hlog). injection H as <- <-.
        left. eexists. split; [reflexivity | now apply log_only_step in Hlog].
    + right. exists [], w1. split; [apply log_only_refl | exact H].
  - destruct (is_Exception e);
      [|injection H as <- <-; left; eexists; split;
        [reflexivity | apply log_only_refl]].
    destruct (status e) as [s|e'];
      [|injection H as <- <-; left; eexists; split;
        [reflexivity | apply log_only_refl]].
    cbn in H. destruct (negb (s =? 404));
      [injection H as <- <-; left; eexists; split;
       [reflexivity | apply log_only_refl]|].
    right. exists [], w1. split; [apply log_only_refl | exact H].
Qed.

(** X8: whatever happens, the composer leaves every trail and every other
    bucket alone; the requests it issues are the policy fetch, then at most
    the identity lookup, then at most one policy write; and when it raises,
    no bucket policy has changed at all. *)
Theorem ensure_bucket_policy_frame (s3_bucket : Bucket) (s3_prefix : string)
    (w w' : world) (r : result unit) :
  ensure_bucket_policy s3_bucket s3_prefix w = (r, w') ->
  trails w' = trails w /\
  (forall other, other <> name s3_bucket ->
                 buckets w' !! other = buckets w !! other) /\
  (forall e, r = Raise e -> buckets w' = buckets w) /\
  exists t,
    calls w' = calls w ++ GetBucketPolicy (name s3_bucket) :: t /\
    (t = [] \/ t = [GetUser] \/
     exists policy, t = [GetUser; PutBucketPolicy (name s3_bucket) policy]).
Proof.
  intros H.
  apply ensure_bucket_policy_any in H
    as [(e & -> & Hlog) | (statements & v & Hlog & Hrun)].
  - apply log_only_frame in Hlog as (Hc & Hb & Ht & _). cbn in *.
    split; [exact Ht|]. split; [intros; now rewrite Hb|].
    split; [intros; exact Hb|]. exists []. split; [exact Hc | now left].
  - apply log_only_frame in Hlog as (Hc & Hb & Ht & _). cbn in *.
    apply append_cloudtrail_statements_any in Hrun
      as (Ht' & [(e & -> & Hc' & Hb' & _)
                | (a & acl & wr & _ & _ & _ & Hc' & Hb')]).
    + split; [now rewrite Ht', Ht|]. split; [intros; now rewrite Hb', Hb|].
      split; [intros; now rewrite Hb', Hb|]. exists [GetUser].
      split; [|right; now left]. rewrite Hc', Hc. now rewrite <- app_assoc.
    + split; [now rewrite Ht', Ht|]. split; [|split].
      * intros other Hne.
        destruct Hb' as [[_ Hb'] | (e & _ & Hb')]; rewrite Hb', ?Hb;
          [now rewrite lookup_insert_ne | reflexivity].
      * intros e ->. destruct Hb' as [[[=] _] | (e' & _ & Hb')].
        now rewrite Hb', Hb.
      * eexists. split; [|right; right; eexists; reflexivity].
        rewrite Hc', Hc. now rewrite <- app_assoc.
Qed.


(** X10: when the fetched policy text is not empty but does not parse, the
    parser's exception ends the run; when it parses to an object without a
    "Statement" key the run ends with KeyError, and when it parses to
    anything but an object, with TypeError.  In each case one log line has
    been added after the fetch and nothing else was issued or changed. *)
Theorem ensure_bucket_policy_bad_document (s3_bucket : Bucket)
    (s3_prefix text : string) (w w1 : world) :
  get_policy s3_bucket w = (Ok text, w1) ->
  truthy_str text = true ->
  w1 = with_calls (calls w ++ [GetBucketPolicy (name s3_bucket)]) w /\
  (forall e, json_loads text = Raise e ->
     ensure_bucket_policy s3_bucket s3_prefix w
     = (Raise e,
        with_log (log w1 ++ ["Existing bucket policy found for bucket "
                             +:+ name s3_bucket]) w1)) /\
  (forall items,
     json_loads text = Ok (VDict items) ->
     lookup_item "Statement" items = None ->
     ensure_bucket_policy s3_bucket s3_prefix w
     = (Raise (KeyError "Statement"),
        with_log (log w1 ++ ["Existing bucket policy found for bucket "
                             +:+ name s3_bucket]) w1)) /\
  (forall doc,
     json_loads text = Ok doc ->
     (forall items, doc <> VDict items) ->
     ensure_bucket_policy s3_bucket s3_prefix w
     = (Raise TypeError,
        with_log (log w1 ++ ["Existing bucket policy found for bucket "
                             +:+ name s3_bucket]) w1)).
Proof.
  intros H Ht.
  split; [rewrite <- get_policy_world; now rewrite H|].
  split; [|split].
  - intros e Hdoc. rewrite ensure_bucket_policy_eq. run.
    now rewrite H, Ht, Hdoc.
  - intros items Hdoc Hno. rewrite ensure_bucket_policy_eq. run.
    rewrite H, Ht, Hdoc. cbn. now rewrite Hno.
  - intros doc Hdoc Hnd. rewrite ensure_bucket_policy_eq. run.
    rewrite H, Ht, Hdoc.
    destruct doc as [| | | | |items]; try reflexivity. now elim (Hnd items).
Qed.

(** X11: a policy document whose "Statement" is not a list, a single
    statement object for one, ends the run with TypeError as soon as the
    loop is entered: iterating over an object yields its keys, which cannot
    be subscripted with "Sid".  Nothing was issued after the fetch.  Only the
    empty object and the empty string pass, as an empty list would. *)
Theorem ensure_bucket_policy_statement_not_a_list (s3_bucket : Bucket)
    (s3_prefix text : string) (w w1 : world) (doc statement : value) :
  get_policy s3_bucket w = (Ok text, w1) ->
  truthy_str text = true ->
  json_loads text = Ok doc ->
  getitem doc "Statement" = Ok statement ->
  (forall items, statement <> VList items) ->
  statement <> VDict [] ->
  statement <> VStr "" ->
  ensure_bucket_policy s3_bucket s3_prefix w
  = (Raise TypeError,
     with_log (log w1 ++ ["Existing bucket policy found for bucket "
                          +:+ name s3_bucket]) w1) /\
  calls w1 = calls w ++ [GetBucketPolicy (name s3_bucket)].
Proof.
  intros H Ht Hdoc Hst Hnl Hnd Hns.
  split;
    [|pose proof (get_policy_world s3_bucket w) as Hw; rewrite H in Hw;
      cbn in Hw; now subst w1].
  rewrite ensure_bucket_policy_eq. run. rewrite H, Ht, Hdoc, Hst. cbn [rbind].
  destruct statement as [| | |s|items|items]; try reflexivity.
  - destruct s as [|c s]; [now elim Hns | reflexivity].
  - now elim (Hnl items).
  - destruct items as [|[k x] items]; [now elim Hnd | reflexivity].
Qed.

(** X12: when the caller's ARN has fewer than four colons the composer
    cannot name the account: in every world the run raises, no policy write
    is issued and no bucket policy changes. *)
Theorem ensure_bucket_policy_short_arn (s3_bucket : Bucket)
    (s3_prefix : string) (w : world) :
  (count_char ":" (caller_arn w) < 4)%nat ->
  exists e t,
    fst (ensure_bucket_policy s3_bucket s3_prefix w) = Raise e /\
    calls (snd (ensure_bucket_policy s3_bucket s3_prefix w))
    = calls w ++ GetBucketPolicy (name s3_bucket) :: t /\
    (t = [] \/ t = [GetUser]) /\
    buckets (snd (ensure_bucket_policy s3_bucket s3_prefix w)) = buckets w.
Proof.
  intros Hshort.
  destruct (ensure_bucket_policy s3_bucket s3_prefix w) as [r w'] eqn:H.
  apply ensure_bucket_policy_any in H
    as [(e & -> & Hlog) | (statements & v & Hlog & Hrun)].
  - apply log_only_frame in Hlog as (Hc & Hb & _). cbn in *.
    exists e, []. repeat split; [exact Hc | now left | exact Hb].
  - apply log_only_frame in Hlog as (Hc & Hb & _ & _ & Ha). cbn in *.
    apply append_cloudtrail_statements_any in Hrun
      as (_ & [(e & -> & Hc' & Hb' & _)
              | (a & _ & _ & Harn & _)]).
    + exists e, [GetUser]. split; [reflexivity|]. split; [|split].
      * rewrite Hc', Hc. now rewrite <- app_assoc.
      * now right.
      * now rewrite Hb', Hb.
    + exfalso. rewrite Ha in Harn. unfold index in Harn.
      destruct (nth_error (split ":" (caller_arn w)) 4) eqn:E;
        [|discriminate Harn].
      assert (4 < length (split ":" (caller_arn w)))%nat
        by (apply nth_error_Some; now rewrite E).
      rewrite split_length in *. lia.
Qed.

(** ** More on the trail enabler *)

Lemma existsb_eqb_not_In (x : string) (l : list string) :
  ~ In x l -> existsb (String.eqb x) l = false.
Proof.
  intros Hno. destruct (existsb (String.eqb x) l) eqn:E; [|reflexivity].
  apply existsb_exists in E as (y & Hin & Heq).
  apply String.eqb_eq in Heq. subst y. now elim Hno.
Qed.

(** X13: for a name that is not among the CloudTrail regions there is no
    connection: the run raises AttributeError at the describe call, having
    issued no request and changed nothing. *)
Theorem ensure_cloudtrail_for_region_unknown (region_name : string)
    (s3_bucket : Bucket) (s3_prefix : string) (w : world) :
  ~ In region_name (cloudtrail_regions w) ->
  ensure_cloudtrail_for_region region_name s3_bucket s3_prefix w
  = (Raise (AttributeError "describe_trails"), w).
Proof.
  intros Hno. unfold ensure_cloudtrail_for_region, connect_to_region. run.
  now rewrite (existsb_eqb_not_In _ _ Hno).
Qed.

(** X14: in a CloudTrail region, a describe-trails request that fails ends
    the run with its error and nothing else issued; and when the describe is
    served but the create or update that follows fails, the run ends with
    that error and no start-logging request is issued. *)
Theorem ensure_cloudtrail_for_region_failure (region_name : string)
    (s3_bucket : Bucket) (s3_prefix : string) (w : world) (e : exn) :
  In region_name (cloudtrail_regions w) ->
  (faults w (length (calls w)) (DescribeTrails region_name) = Some e ->
   ensure_cloudtrail_for_region region_name s3_bucket s3_prefix w
   = (Raise e, with_calls (calls w ++ [DescribeTrails region_name]) w)) /\
  (faults w (length (calls w)) (DescribeTrails region_name) = None ->
   faults w (S (length (calls w)))
     (trail_request s3_bucket s3_prefix region_name (trails_in region_name w))
   = Some e ->
   ensure_cloudtrail_for_region region_name s3_bucket s3_prefix w
   = (Raise e,
      with_calls
        (calls w ++
         [DescribeTrails region_name;
          trail_request s3_bucket s3_prefix region_name
            (trails_in region_name w)]) w)).
Proof.
  intros Hin. split.
  - intros Hf. unfold ensure_cloudtrail_for_region, connect_to_region. run.
    rewrite (existsb_eqb_In _ _ Hin).
    unfold describe_trails, method, request. cbn [region]. now rewrite Hf.
  - intros Hnf Hf.
    unfold ensure_cloudtrail_for_region, connect_to_region. run.
    rewrite (existsb_eqb_In _ _ Hin).
    rewrite (describe_trails_ok {| region := region_name |} w Hnf).
    cbn [region].
    destruct (trails_in region_name w) as [|first rest]; cbn [trail_request] in *.
    + unfold create_trail, method, request. cbn [region faults calls with_calls].
      rewrite length_app, Nat.add_1_r, Hf. cbn. now rewrite <- app_assoc.
    + unfold update_trail, method, request. cbn [region faults calls with_calls].
      rewrite length_app, Nat.add_1_r, Hf. cbn. now rewrite <- app_assoc.
Qed.

Lemma trails_only_refl (regions : list string) (w : world) :
  trails_only regions w w.
Proof. now repeat split. Qed.

Lemma trails_only_trans (rs1 rs2 : list string) (w1 w2 w3 : world) :
  trails_only rs1 w1 w2 -> trails_only rs2 w2 w3 ->
  trails_only (rs1 ++ rs2) w1 w3.
Proof.
  intros (Hb & Hf & Hr & Ha & Ht) (Hb' & Hf' & Hr' & Ha' & Ht').
  split; [congruence|]. split; [congruence|]. split; [congruence|].
  split; [congruence|].
  intros other Hno. rewrite Ht', Ht; [reflexivity | |];
    intros Hin; apply Hno, in_or_app; auto.
Qed.

Lemma trail_request_any {A} (c : call) (region_name : string)
    (serve : M A) (w w' : world) (r : result A) :
  (forall v v' r', serve v = (r', v') ->
                   calls v' = calls v /\ trails_only [region_name] v v') ->
  request c serve w = (r, w') ->
  calls w' = calls w ++ [c] /\ trails_only [region_name] w w'.
Proof.
  intros Hserve. unfold request.
  destruct (faults w (length (calls w)) c).
  - intros [= <- <-]. split; [reflexivity | now repeat split].
  - intros H. apply Hserve in H as (Hc & Hb & Hf & Hr & Ha & Ht).
    split; [exact Hc | now repeat split].
Qed.

Lemma trails_insert_only (region_name : string) (l : list trail) (v : world) :
  trails_only [region_name] v
    (with_trails (<[region_name := l]> (trails v)) v).
Proof.
  repeat split. intros other Hno. cbn. apply lookup_insert_ne.
  intros ->. apply Hno. now left.
Qed.

Lemma create_trail_any (c : CloudTrailConnection) (n b p : string) (g : bool)
    (w w' : world) (r : result unit) :
  create_trail (Some c) n b p g w = (r, w') ->
  calls w' = calls w ++ [CreateTrail (region c) n b p g] /\
  trails_only [region c] w w'.
Proof.
  unfold create_trail, method. apply trail_request_any.
  intros v v' r'. destruct (has_trail _ _); intros [= _ <-];
    (split; [reflexivity|]);
    [apply trails_only_refl | apply trails_insert_only].
Qed.

Lemma update_trail_any (c : CloudTrailConnection) (n b p : string) (g : bool)
    (w w' : world) (r : result unit) :
  update_trail (Some c) n b p g w = (r, w') ->
  calls w' = calls w ++ [UpdateTrail (region c) n b p g] /\
  trails_only [region c] w w'.
Proof.
  unfold update_trail, method. apply trail_request_any.
  intros v v' r'. destruct (has_trail _ _); intros [= _ <-];
    (split; [reflexivity|]);
    [apply trails_insert_only | apply trails_only_refl].
Qed.

Lemma start_logging_any (c : CloudTrailConnection) (n : string)
    (w w' : world) (r : result unit) :
  start_logging (Some c) n w = (r, w') ->
  calls w' = calls w ++ [StartLogging (region c) n] /\
  trails_only [region c] w w'.
Proof.
  unfold start_logging, method. apply trail_request_any.
  intros v v' r'. destruct (has_trail _ _); intros [= _ <-];
    (split; [reflexivity|]);
    [apply trails_insert_only | apply trails_only_refl].
Qed.

Lemma describe_trails_any (c : CloudTrailConnection) (w w' : world)
    (r : result (list trail)) :
  describe_trails (Some c) w = (r, w') ->
  w' = with_calls (calls w ++ [DescribeTrails (region c)]) w.
Proof.
  unfold describe_trails, method, request.
  destruct (faults w _ _); now intros [= _ <-].
Qed.

Lemma trails_only_same (region_name : string) (w1 w2 w3 : world) :
  trails_only [region_name] w1 w2 -> trails_only [region_name] w2 w3 ->
  trails_only [region_name] w1 w3.
Proof.
  intros H1 H2. pose proof (trails_only_trans _ _ _ _ _ H1 H2) as H.
  destruct H as (Hb & Hf & Hr & Ha & Ht). repeat split; trivial.
  intros other Hno. apply Ht. intros [<-|[<-|[]]]; apply Hno; now left.
Qed.

(** One region in any world: requests for that region only, and nothing
    but that region's trails can have changed. *)
Lemma ensure_cloudtrail_for_region_any (region_name : string)
    (s3_bucket : Bucket) (s3_prefix : string) (w w' : world)
    (r : result unit) :
  ensure_cloudtrail_for_region region_name s3_bucket s3_prefix w = (r, w') ->
  trails_only [region_name] w w' /\
  exists t, calls w' = calls w ++ t /\
            Forall (fun c => call_region c = Some region_name) t.
Proof.
  unfold ensure_cloudtrail_for_region, connect_to_region. run.
  destruct (existsb (String.eqb region_name) (cloudtrail_regions w)).
  2:{ cbn. intros [= <- <-]. split; [apply trails_only_refl|].
      exists []. split; [now rewrite app_nil_r | constructor]. }
  set (conn := {| region := region_name |}).
  destruct (describe_trails (Some conn) w) as [r0 w1] eqn:Hd.
  apply describe_trails_any in Hd. cbn [region conn] in Hd.
  assert (H1 : trails_only [region_name] w w1) by (subst w1; now repeat split).
  assert (Hc1 : calls w1 = calls w ++ [DescribeTrails region_name])
    by now subst w1.
  clear Hd.
  destruct r0 as [trail_list|e].
  2:{ intros [= <- <-]. split; [exact H1|]. eexists. split; [exact Hc1|].
      now repeat constructor. }
  assert (Hcu : forall n (rcu : result unit) w2,
            (create_trail (Some conn) n (name s3_bucket) s3_prefix true w1
             = (rcu, w2) \/
             update_trail (Some conn) n (name s3_bucket) s3_prefix true w1
             = (rcu, w2)) ->
            match rcu with
            | Ok _ => start_logging (Some conn) n w2
            | Raise e => (Raise e, w2)
            end = (r, w') ->
            trails_only [region_name] w w' /\
            exists t, calls w' = calls w ++ t /\
                      Forall (fun c => call_region c = Some region_name) t).
  { intros n rcu w2 Hcu Hrest.
    assert (Hc2 : exists c2, calls w2 = calls w1 ++ [c2] /\
                             call_region c2 = Some region_name /\
                             trails_only [region_name] w1 w2).
    { destruct Hcu as [Hcu|Hcu];
        [apply create_trail_any in Hcu | apply update_trail_any in Hcu];
        destruct Hcu as (Hc & Ht); eexists; split; try exact Hc;
        split; try exact Ht; reflexivity. }
    destruct Hc2 as (c2 & Hc2 & Hr2 & H2).
    destruct rcu as [[]|e].
    - apply start_logging_any in Hrest as (Hc3 & H3).
      split; [eauto using trails_only_same|].
      eexists. split.
      + rewrite Hc3, Hc2, Hc1. rewrite <- !app_assoc. reflexivity.
      + cbn. now repeat constructor.
    - injection Hrest as <- <-. split; [eauto using trails_only_same|].
      eexists. split.
      + rewrite Hc2, Hc1. rewrite <- !app_assoc. reflexivity.
      + cbn. now repeat constructor. }
  destruct trail_list as [|first rest].
  - destruct (create_trail (Some conn) "Default" (name s3_bucket) s3_prefix
                true w1) as [rcu w2] eqn:E.
    intros Hrest. apply (Hcu "Default" rcu w2); [now left|].
    now destruct rcu.
  - destruct (update_trail (Some conn) (Name first) (name s3_bucket) s3_prefix
                true w1) as [rcu w2] eqn:E.
    intros Hrest. apply (Hcu (Name first) rcu w2); [now right|].
    now destruct rcu.
Qed.

Lemma for_each_region_any (region_names : list string) (s3_bucket : Bucket)
    (s3_prefix : string) (w w' : world) (r : result unit) :
  for_each_region region_names s3_bucket s3_prefix w = (r, w') ->
  trails_only region_names w w' /\
  exists t, calls w' = calls w ++ t /\
            Forall (fun c => exists region_name,
                               In region_name region_names /\
                               call_region c = Some region_name) t.
Proof.
  revert w. induction region_names as [|region_name rest IH]; intros w.
  - cbn. intros [= <- <-]. split; [apply trails_only_refl|].
    exists []. split; [now rewrite app_nil_r | constructor].
  - cbn [for_each_region]. run.
    set (w0 := with_log _ w).
    destruct (ensure_cloudtrail_for_region region_name s3_bucket s3_prefix w0)
      as [r1 w1] eqn:E1.
    apply ensure_cloudtrail_for_region_any in E1 as (H1 & t1 & Hc1 & Hall1).
    assert (H0 : trails_only [region_name] w w1).
    { destruct H1 as (Hb & Hf & Hr & Ha & Ht). now repeat split. }
    assert (Hall1' : Forall (fun c => exists rn, In rn (region_name :: rest) /\
                                                 call_region c = Some rn) t1).
    { eapply List.Forall_impl; [|exact Hall1]. intros c Hc.
      exists region_name. split; [now left | exact Hc]. }
    destruct r1 as [[]|e].
    + intros Hrest. apply IH in Hrest as (H2 & t2 & Hc2 & Hall2).
      split; [exact (trails_only_trans _ _ _ _ _ H0 H2)|].
      exists (t1 ++ t2). split.
      * rewrite Hc2, Hc1. cbn. now rewrite <- app_assoc.
      * apply Forall_app. split; [exact Hall1'|].
        eapply List.Forall_impl; [|exact Hall2]. intros c (rn & Hin & Hc).
        exists rn. split; [now right | exact Hc].
    + intros [= <- <-]. split.
      * destruct H0 as (Hb & Hf & Hr & Ha & Ht). repeat split; trivial.
        intros other Hno. apply Ht. intros [<-|[]]. apply Hno. now left.
      * exists t1. split; [exact Hc1 | exact Hall1'].
Qed.

(** X15: whatever happens, the trail enabler issues CloudTrail requests
    only, each directed at one of the listed regions; it changes no bucket
    and no trail of a region that is not listed. *)
Theorem ensure_cloudtrail_only_trails (s3_bucket : Bucket)
    (s3_prefix : string) (w w' : world) (r : result unit) :
  ensure_cloudtrail s3_bucket s3_prefix w = (r, w') ->
  buckets w' = buckets w /\
  (forall other, ~ In other (cloudtrail_regions w) ->
                 trails w' !! other = trails w !! other) /\
  exists t,
    calls w' = calls w ++ t /\
    Forall (fun c => exists region_name,
                       In region_name (cloudtrail_regions w) /\
                       call_region c = Some region_name) t.
Proof.
  unfold ensure_cloudtrail, get_cloudtrail_regions, get_regions. run.
  intros H. apply for_each_region_any in H as ((Hb & _ & _ & _ & Ht) & Hcalls).
  split; [exact Hb|]. split; [exact Ht | exact Hcalls].
Qed.

(** X16: the regions are handled one after the other and the first failure
    ends the run: when the region list is [done ++ rest] and going through
    [done] raises, the enabler raises the same exception in the same world,
    so no region of [rest] receives a request; when going through [done]
    succeeds, the enabler continues with [rest] from there. *)
Theorem ensure_cloudtrail_fail_fast (s3_bucket : Bucket) (s3_prefix : string)
    (w w' : world) (done rest : list string) (r : result unit) :
  cloudtrail_regions w = done ++ rest ->
  for_each_region done s3_bucket s3_prefix w = (r, w') ->
  ensure_cloudtrail s3_bucket s3_prefix w
  = match r with
    | Ok _ => for_each_region rest s3_bucket s3_prefix w'
    | Raise e => (Raise e, w')
    end.
Proof.
  unfold ensure_cloudtrail, get_cloudtrail_regions, get_regions. run.
  intros ->. revert w. induction done as [|region_name done IH]; intros w.
  - cbn. now intros [= <- <-].
  - cbn [for_each_region app]. run.
    destruct (ensure_cloudtrail_for_region region_name s3_bucket s3_prefix _)
      as [[[]|e] w1]; [apply IH | now intros [= <- <-]].
Qed.

Lemma update_named_head (n : string) (f : trail -> trail) (first : trail)
    (rest : list trail) :
  Name first = n ->
  update_named n f (first :: rest) = f first :: update_named n f rest.
Proof. intros <-. unfold update_named. cbn. now rewrite String.eqb_refl. Qed.

Lemma trails_in_with_trails (r : string) (l : list trail)
    (m : gmap string (list trail)) (v : world) :
  trails_in r (with_trails (<[r := l]> m) v) = l.
Proof. unfold trails_in. cbn. now rewrite lookup_insert_eq. Qed.

Lemma create_trail_served (c : CloudTrailConnection) (n b p : string)
    (g : bool) (w : world) :
  faults w (length (calls w)) (CreateTrail (region c) n b p g) = None ->
  has_trail n (trails_in (region c) w) = false ->
  create_trail (Some c) n b p g w
  = (Ok tt,
     with_trails
       (<[region c :=
            trails_in (region c) w ++
            [{| Name := n; S3BucketName := b; S3KeyPrefix := p;
                IncludeGlobalServiceEvents := g; IsLogging := false |}]]>
          (trails w))
       (with_calls (calls w ++ [CreateTrail (region c) n b p g]) w)).
Proof.
  intros Hnf Hfree. unfold create_trail, method. rewrite request_ok by exact Hnf.
  change (trails_in (region c) (with_calls _ w)) with (trails_in (region c) w).
  now rewrite Hfree.
Qed.

Lemma update_trail_served (c : CloudTrailConnection) (n b p : string)
    (g : bool) (w : world) :
  faults w (length (calls w)) (UpdateTrail (region c) n b p g) = None ->
  has_trail n (trails_in (region c) w) = true ->
  update_trail (Some c) n b p g w
  = (Ok tt,
     with_trails
       (<[region c :=
            update_named n
              (fun t => {| Name := Name t; S3BucketName := b; S3KeyPrefix := p;
                           IncludeGlobalServiceEvents := g;
                           IsLogging := IsLogging t |})
              (trails_in (region c) w)]>
          (trails w))
       (with_calls (calls w ++ [UpdateTrail (region c) n b p g]) w)).
Proof.
  intros Hnf Hhas. unfold update_trail, method. rewrite request_ok by exact Hnf.
  change (trails_in (region c) (with_calls _ w)) with (trails_in (region c) w).
  now rewrite Hhas.
Qed.

Lemma start_logging_served (c : CloudTrailConnection) (n : string) (w : world) :
  faults w (length (calls w)) (StartLogging (region c) n) = None ->
  has_trail n (trails_in (region c) w) = true ->
  start_logging (Some c) n w
  = (Ok tt,
     with_trails
       (<[region c :=
            update_named n
              (fun t => {| Name := Name t; S3BucketName := S3BucketName t;
                           S3KeyPrefix := S3KeyPrefix t;
                           IncludeGlobalServiceEvents :=
                             IncludeGlobalServiceEvents t;
                           IsLogging := true |})
              (trails_in (region c) w)]>
          (trails w))
       (with_calls (calls w ++ [StartLogging (region c) n]) w)).
Proof.
  intros Hnf Hhas. unfold start_logging, method. rewrite request_ok by exact Hnf.
  change (trails_in (region c) (with_calls _ w)) with (trails_in (region c) w).
  now rewrite Hhas.
Qed.

(** One region when no request fails: the run succeeds and the region's
    first trail ends up configured and logging. *)
Lemma ensure_cloudtrail_for_region_state (region_name : string)
    (s3_bucket : Bucket) (s3_prefix : string) (w : world) :
  fault_free w ->
  In region_name (cloudtrail_regions w) ->
  exists w',
    ensure_cloudtrail_for_region region_name s3_bucket s3_prefix w
    = (Ok tt, w') /\
    region_configured s3_bucket s3_prefix region_name w' /\
    (trails_in region_name w <> [] ->
     exists cs, calls w' = calls w ++ cs /\
                region_update_calls s3_bucket s3_prefix region_name cs).
Proof.
  intros Hff Hin.
  unfold ensure_cloudtrail_for_region, connect_to_region. run.
  rewrite (existsb_eqb_In _ _ Hin).
  rewrite (describe_trails_ok {| region := region_name |} w (Hff _ _)).
  cbn [region].
  set (conn := {| region := region_name |}).
  set (w1 := with_calls (calls w ++ [DescribeTrails region_name]) w).
  assert (Hl1 : trails_in region_name w1 = trails_in region_name w)
    by reflexivity.
  destruct (trails_in region_name w) as [|first rest] eqn:Hl.
  - rewrite (create_trail_served conn "Default" (name s3_bucket) s3_prefix
               true w1) by (first [apply Hff | cbn [region conn]; now rewrite Hl1]).
    cbn [region conn]. rewrite Hl1. cbn [app].
    match goal with
    | |- context [start_logging _ _ ?v] => set (w2 := v)
    end.
    assert (Hl2 : trails_in region_name w2
                  = [{| Name := "Default"; S3BucketName := name s3_bucket;
                        S3KeyPrefix := s3_prefix;
                        IncludeGlobalServiceEvents := true;
                        IsLogging := false |}])
      by apply trails_in_with_trails.
    rewrite (start_logging_served conn "Default" w2)
      by (first [apply Hff | cbn [region conn]; now rewrite Hl2]).
    cbn [region conn]. rewrite Hl2.
    eexists. split; [reflexivity|]. split; [|now intros Hne].
    unfold region_configured. rewrite trails_in_with_trails.
    do 2 eexists. split; [reflexivity|]. now cbn.
  - assert (Hhas : has_trail (Name first) (first :: rest) = true)
      by (unfold has_trail; cbn; now rewrite String.eqb_refl).
    rewrite (update_trail_served conn (Name first) (name s3_bucket) s3_prefix
               true w1)
      by (first [apply Hff | cbn [region conn]; now rewrite Hl1]).
    cbn [region conn]. rewrite Hl1.
    rewrite (update_named_head (Name first)) by reflexivity.
    match goal with
    | |- context [start_logging _ _ ?v] => set (w2 := v)
    end.
    assert (Hl2 : exists rest',
              trails_in region_name w2
              = {| Name := Name first; S3BucketName := name s3_bucket;
                   S3KeyPrefix := s3_prefix;
                   IncludeGlobalServiceEvents := true;
                   IsLogging := IsLogging first |} :: rest')
      by (eexists; apply trails_in_with_trails).
    destruct Hl2 as (rest' & Hl2).
    rewrite (start_logging_served conn (Name first) w2);
      [|apply Hff
       |cbn [region conn]; rewrite Hl2; unfold has_trail; cbn;
        now rewrite String.eqb_refl].
    cbn [region conn]. rewrite Hl2.
    rewrite (update_named_head (Name first)) by reflexivity.
    eexists. split; [reflexivity|]. split.
    + unfold region_configured. rewrite trails_in_with_trails.
      do 2 eexists. split; [reflexivity|]. now cbn.
    + intros _. eexists. split.
      * cbn. rewrite <- !app_assoc. reflexivity.
      * now exists (Name first).
Qed.

Lemma region_configured_nonempty (s3_bucket : Bucket)
    (s3_prefix region_name : string) (w : world) :
  region_configured s3_bucket s3_prefix region_name w ->
  trails_in region_name w <> [].
Proof. intros (first & rest & -> & _). discriminate. Qed.

Lemma trails_only_trails_in (regions : list string) (w w' : world)
    (region_name : string) :
  trails_only regions w w' -> ~ In region_name regions ->
  trails_in region_name w' = trails_in region_name w.
Proof.
  intros (_ & _ & _ & _ & Ht) Hno. unfold trails_in. now rewrite Ht.
Qed.

(** One region on a fault-free world, with what is kept for the next. *)
Lemma ensure_cloudtrail_for_region_next (region_name : string)
    (s3_bucket : Bucket) (s3_prefix : string) (w : world) :
  fault_free w ->
  In region_name (cloudtrail_regions w) ->
  exists w',
    ensure_cloudtrail_for_region region_name s3_bucket s3_prefix w
    = (Ok tt, w') /\
    fault_free w' /\ cloudtrail_regions w' = cloudtrail_regions w /\
    region_configured s3_bucket s3_prefix region_name w' /\
    (forall r, r <> region_name -> trails_in r w' = trails_in r w) /\
    (trails_in region_name w <> [] ->
     exists cs, calls w' = calls w ++ cs /\
                region_update_calls s3_bucket s3_prefix region_name cs).
Proof.
  intros Hff Hin.
  destruct (ensure_cloudtrail_for_region_state region_name s3_bucket s3_prefix
              w Hff Hin) as (w' & Hrun & Hconf & Hupd).
  exists w'. split; [exact Hrun|].
  apply ensure_cloudtrail_for_region_any in Hrun as (Honly & _).
  pose proof Honly as (_ & Hf & Hr & _ & _).
  split; [intros n c; rewrite Hf; apply Hff|]. split; [exact Hr|].
  split; [exact Hconf|]. split; [|exact Hupd].
  intros r Hne. apply (trails_only_trails_in _ _ _ _ Honly).
  intros [->|[]]. now elim Hne.
Qed.

Lemma for_each_region_state (region_names : list string) (s3_bucket : Bucket)
    (s3_prefix : string) (w : world) :
  fault_free w ->
  (forall r, In r region_names -> In r (cloudtrail_regions w)) ->
  exists w',
    for_each_region region_names s3_bucket s3_prefix w = (Ok tt, w') /\
    fault_free w' /\ cloudtrail_regions w' = cloudtrail_regions w /\
    (forall r, In r region_names ->
               region_configured s3_bucket s3_prefix r w') /\
    (forall r, trails_in r w <> [] -> trails_in r w' <> []).
Proof.
  revert w. induction region_names as [|r0 rest IH]; intros w Hff Hsub.
  - exists w. cbn. repeat split; trivial. intros r [].
  - cbn [for_each_region]. run.
    set (w0 := with_log _ w).
    destruct (ensure_cloudtrail_for_region_next r0 s3_bucket s3_prefix w0)
      as (w1 & -> & Hff1 & Hr1 & Hconf1 & Hkeep1 & _);
      [exact Hff | apply Hsub; now left |].
    destruct (IH w1 Hff1) as (w2 & Hrun2 & Hff2 & Hr2 & Hconf2 & Hne2).
    { intros r Hr. rewrite Hr1. apply Hsub. now right. }
    rewrite Hrun2.
    exists w2. split; [reflexivity|]. split; [exact Hff2|].
    split; [now rewrite Hr2, Hr1|].
    assert (Hne1 : forall r, trails_in r w <> [] -> trails_in r w1 <> []).
    { intros r Hr. destruct (String.eqb_spec r r0) as [->|Hneq].
      - now apply region_configured_nonempty in Hconf1.
      - now rewrite (Hkeep1 r Hneq). }
    split; [|intros r Hr; now apply Hne2, Hne1].
    intros r [<-|Hin]; [|now apply Hconf2].
    destruct (in_dec string_dec r0 rest) as [Hin|Hnin]; [now apply Hconf2|].
    destruct Hconf1 as (first & rest' & Hl & Hrest).
    exists first, rest'. split; [|exact Hrest].
    rewrite <- Hl.
    apply for_each_region_any in Hrun2 as (Honly & _).
    now apply (trails_only_trails_in _ _ _ _ Honly).
Qed.

Lemma for_each_region_updates (region_names : list string)
    (s3_bucket : Bucket) (s3_prefix : string) (w : world) :
  fault_free w ->
  (forall r, In r region_names -> In r (cloudtrail_regions w)) ->
  (forall r, In r region_names -> trails_in r w <> []) ->
  exists w' chunks,
    for_each_region region_names s3_bucket s3_prefix w = (Ok tt, w') /\
    calls w' = calls w ++ concat chunks /\
    Forall2 (region_update_calls s3_bucket s3_prefix) region_names chunks.
Proof.
  revert w. induction region_names as [|r0 rest IH]; intros w Hff Hsub Hne.
  - exists w, []. cbn. rewrite app_nil_r. repeat split. constructor.
  - cbn [for_each_region]. run.
    set (w0 := with_log _ w).
    destruct (ensure_cloudtrail_for_region_next r0 s3_bucket s3_prefix w0)
      as (w1 & -> & Hff1 & Hr1 & Hconf1 & Hkeep1 & Hupd);
      [exact Hff | apply Hsub; now left |].
    destruct Hupd as (cs & Hc1 & Hcs); [apply (Hne r0); now left|].
    destruct (IH w1 Hff1) as (w2 & chunks & -> & Hc2 & Hall).
    + intros r Hr. rewrite Hr1. apply Hsub. now right.
    + intros r Hr. destruct (String.eqb_spec r r0) as [->|Hneq].
      * now apply region_configured_nonempty in Hconf1.
      * rewrite (Hkeep1 r Hneq). apply Hne. now right.
    + exists w2, (cs :: chunks). split; [reflexivity|]. split.
      * rewrite Hc2, Hc1. cbn. now rewrite <- app_assoc.
      * now constructor.
Qed.

(** X17: when no request fails, the trail enabler succeeds and afterwards,
    in every listed region, the first trail delivers to the bucket under the
    prefix with global service events included, and is logging. *)
Theorem ensure_cloudtrail_configures (s3_bucket : Bucket) (s3_prefix : string)
    (w : world) :
  fault_free w ->
  exists w',
    ensure_cloudtrail s3_bucket s3_prefix w = (Ok tt, w') /\
    forall region_name,
      In region_name (cloudtrail_regions w) ->
      region_configured s3_bucket s3_prefix region_name w'.
Proof.
  intros Hff. unfold ensure_cloudtrail, get_cloudtrail_regions, get_regions.
  run.
  destruct (for_each_region_state (cloudtrail_regions w) s3_bucket s3_prefix w
              Hff (fun r H => H)) as (w' & Hrun & _ & _ & Hconf & _).
  exists w'. now split.
Qed.

(** X18: when no request fails, a second run of the trail enabler creates
    nothing: it finds in every listed region the trail the first run left
    there and issues, region after region, a describe, an update of that
    trail and a start-logging. *)
Theorem ensure_cloudtrail_twice (s3_bucket : Bucket) (s3_prefix : string)
    (w : world) :
  fault_free w ->
  exists w1 w2 chunks,
    ensure_cloudtrail s3_bucket s3_prefix w = (Ok tt, w1) /\
    ensure_cloudtrail s3_bucket s3_prefix w1 = (Ok tt, w2) /\
    calls w2 = calls w1 ++ concat chunks /\
    Forall2 (region_update_calls s3_bucket s3_prefix) (cloudtrail_regions w)
      chunks.
Proof.
  intros Hff.
  destruct (for_each_region_state (cloudtrail_regions w) s3_bucket s3_prefix w
              Hff (fun r H => H)) as (w1 & Hrun1 & Hff1 & Hr1 & Hconf & _).
  destruct (for_each_region_updates (cloudtrail_regions w) s3_bucket s3_prefix
              w1 Hff1) as (w2 & chunks & Hrun2 & Hc2 & Hall).
  - intros r Hr. now rewrite Hr1.
  - intros r Hr. eapply region_configured_nonempty. now apply Hconf.
  - exists w1, w2, chunks.
    unfold ensure_cloudtrail, get_cloudtrail_regions, get_regions. run.
    rewrite Hr1. now repeat split.
Qed.

(** ** The whole run *)

(** X19: an empty bucket name counts as a missing one: when the command
    line gives the bucket name as the empty string, the program prints the
    help and leaves with status 1 without issuing a request. *)
Theorem main_empty_bucket_name (argv : list string) (w : world)
    (args : Namespace) :
  fst (parse_args argv parser_defaults w) = Ok args ->
  args_bucket_name args = Some "" ->
  main argv w
  = (Raise (SystemExit 1), with_help_printed (S (help_printed w)) w) /\
  exit_status (fst (main argv w)) = 1.
Proof.
  intros Hparse Hname.
  destruct (parse_args argv parser_defaults w) as [r w0] eqn:Hp.
  cbn in Hparse; subst r.
  apply parse_args_pure in Hp as Hw0; subst w0.
  assert (Hmain : main argv w
                  = (Raise (SystemExit 1),
                     with_help_printed (S (help_printed w)) w)).
  { unfold main. run. rewrite Hp, Hname. reflexivity. }
  now rewrite Hmain.
Qed.


(** The bucket ensurer in any world. *)
Lemma ensure_s3_bucket_any (bucket_name : string) (w w' : world)
    (r : result Bucket) :
  ensure_s3_bucket bucket_name w = (r, w') ->
  trails w' = trails w /\
  (forall b, r = Ok b -> name b = bucket_name) /\
  (calls w' = calls w ++ [GetBucket bucket_name] \/
   calls w' = calls w ++ [GetBucket bucket_name; CreateBucket bucket_name]).
Proof.
  unfold ensure_s3_bucket, get_bucket, create_bucket, request. run.
  destruct (faults w (length (calls w)) (GetBucket bucket_name)) as [e|].
  - destruct e as [s| | | | | | |c]; cbn;
      try (intros [= <- <-]; split; [reflexivity|];
           split; [intros ? [=] | now left]).
    destruct (Z.eqb_spec s 404) as [->|Hne]; cbn;
      [|intros [= <- <-]; split; [reflexivity|];
        split; [intros ? [=] | now left]].
    destruct (faults w _ _);
      [intros [= <- <-]; split; [reflexivity|];
       split; [intros ? [=] | right; cbn; now rewrite <- app_assoc]|].
    destruct (buckets w !! bucket_name); intros [= <- <-];
      (split; [reflexivity|]);
      (split; [|right; cbn; now rewrite <- app_assoc]);
      [intros ? [=] | now intros ? [= <-]].
  - cbn. destruct (buckets w !! bucket_name) as [pol|] eqn:Hpol; cbn.
    + intros [= <- <-]. split; [reflexivity|].
      split; [now intros ? [= <-] | now left].
    + destruct (faults w _ _);
        [intros [= <- <-]; split; [reflexivity|];
         split; [intros ? [=] | right; cbn; now rewrite <- app_assoc]|].
      cbn. rewrite Hpol. intros [= <- <-]. split; [reflexivity|].
      split; [now intros ? [= <-] | right; cbn; now rewrite <- app_assoc].
Qed.

Lemma parse_args_calls (argv : list string) (ns : Namespace) (w w' : world)
    (r : result Namespace) :
  parse_args argv ns w = (r, w') ->
  calls w' = calls w /\ buckets w' = buckets w.
Proof.
  revert ns. induction argv as [argv IH] using (induction_ltof1 _ (@length _)).
  unfold ltof in IH. intros ns H.
  destruct argv as [|flag rest]; [now inversion H|].
  cbn [parse_args] in H.
  destruct (String.eqb flag "-h" || String.eqb flag "--help");
    [run_in H; cbn in H; now inversion H|].
  destruct (String.eqb flag "-b" || String.eqb flag "--bucket").
  { destruct rest as [|v rest']; [now inversion H|].
    apply IH in H; [exact H | simpl; lia]. }
  destruct (String.eqb flag "-p" || String.eqb flag "--prefix").
  { destruct rest as [|v rest']; [now inversion H|].
    apply IH in H; [exact H | simpl; lia]. }
  now inversion H.
Qed.

(** The composer's requests in any world: no CloudTrail request, and on
    success the last one is the policy write, which was served. *)
Lemma ensure_bucket_policy_requests (s3_bucket : Bucket) (s3_prefix : string)
    (w w' : world) (r : result unit) :
  ensure_bucket_policy s3_bucket s3_prefix w = (r, w') ->
  exists t,
    calls w' = calls w ++ t /\
    Forall (fun c => call_region c = None) t /\
    (r = Ok tt ->
     exists t' policy,
       t = t' ++ [PutBucketPolicy (name s3_bucket) policy] /\
       buckets w' !! name s3_bucket = Some (Some policy)).
Proof.
  intros H.
  apply ensure_bucket_policy_any in H
    as [(e & -> & Hlog) | (statements & v & Hlog & Hrun)].
  - apply log_only_frame in Hlog as (Hc & _). cbn in Hc.
    eexists. split; [exact Hc|]. split; [now repeat constructor | intros [=]].
  - apply log_only_frame in Hlog as (Hc & _). cbn in Hc.
    apply append_cloudtrail_statements_any in Hrun
      as (_ & [(e & -> & Hc' & _)
              | (a & acl & wr & _ & _ & _ & Hc' & Hb')]).
    + eexists. split; [rewrite Hc', Hc, <- app_assoc; reflexivity|].
      split; [now repeat constructor | intros [=]].
    + eexists. split; [rewrite Hc', Hc, <- app_assoc; reflexivity|].
      split; [now repeat constructor|].
      intros ->. destruct Hb' as [[_ Hb'] | (e & [=] & _)].
      exists [GetBucketPolicy (name s3_bucket); GetUser]. eexists.
      split; [reflexivity|]. rewrite Hb'. apply lookup_insert_eq.
Qed.

(** X20: in every run of the program, whatever fails, the CloudTrail
    requests come last, and there are some only if the request just before
    them was the policy write for the bucket, which was served: at the end
    of the run that policy is still the bucket's policy. *)
Theorem main_trails_after_policy (argv : list string) (w w' : world)
    (r : result unit) :
  main argv w = (r, w') ->
  exists before after,
    calls w' = calls w ++ before ++ after /\
    Forall (fun c => call_region c = None) before /\
    Forall (fun c => is_Some (call_region c)) after /\
    (after <> [] ->
     exists before' bucket_name policy,
       before = before' ++ [PutBucketPolicy bucket_name policy] /\
       buckets w' !! bucket_name = Some (Some policy)).
Proof.
  unfold main. run. intros H.
  destruct (parse_args argv parser_defaults w) as [rp w0] eqn:Hp.
  apply parse_args_calls in Hp as (Hc0 & _).
  assert (Hstop : forall (v : world) t,
            calls v = calls w ++ t ->
            Forall (fun c => call_region c = None) t ->
            exists before after,
              calls v = calls w ++ before ++ after /\
              Forall (fun c => call_region c = None) before /\
              Forall (fun c => is_Some (call_region c)) after /\
              (after <> [] ->
               exists before' bucket_name policy,
                 before = before' ++ [PutBucketPolicy bucket_name policy] /\
                 buckets v !! bucket_name = Some (Some policy))).
  { intros v t Hc Hall. exists t, []. rewrite app_nil_r.
    split; [exact Hc|]. split; [exact Hall|]. split; [constructor|].
    now intros Hne. }
  destruct rp as [args|e];
    [|injection H as <- <-; apply (Hstop w0 []);
      [now rewrite app_nil_r | constructor]].
  assert (Hhelp : (Raise (SystemExit 1),
                   with_help_printed (S (help_printed w0)) w0) = (r, w') ->
                  exists before after,
                    calls w' = calls w ++ before ++ after /\
                    Forall (fun c => call_region c = None) before /\
                    Forall (fun c => is_Some (call_region c)) after /\
                    (after <> [] ->
                     exists before' bucket_name policy,
                       before = before' ++ [PutBucketPolicy bucket_name policy] /\
                       buckets w' !! bucket_name = Some (Some policy))).
  { intros [= <- <-]. apply (Hstop _ []);
      [cbn; now rewrite app_nil_r | constructor]. }
  destruct (args_bucket_name args) as [bucket_name|]; [|now apply Hhelp].
  destruct (truthy_str bucket_name); [|now apply Hhelp].
  clear Hhelp.
  destruct (ensure_s3_bucket bucket_name w0) as [r1 w1] eqn:H1.
  apply ensure_s3_bucket_any in H1 as (_ & _ & Hc1).
  assert (Hc1' : exists t1, calls w1 = calls w ++ t1 /\
                            Forall (fun c => call_region c = None) t1).
  { destruct Hc1 as [Hc1|Hc1]; rewrite Hc1, Hc0; eexists;
      (split; [reflexivity | now repeat constructor]). }
  clear Hc1. destruct Hc1' as (t1 & Hc1 & Hall1).
  destruct r1 as [s3_bucket|e];
    [|injection H as <- <-; now apply (Hstop w1 t1)].
  destruct (ensure_bucket_policy s3_bucket (args_s3_prefix args) w1)
    as [r2 w2] eqn:H2.
  apply ensure_bucket_policy_requests in H2 as (t2 & Hc2 & Hall2 & Hok).
  assert (Hc12 : calls w2 = calls w ++ (t1 ++ t2))
    by (rewrite Hc2, Hc1; now rewrite <- app_assoc).
  assert (Hall12 : Forall (fun c => call_region c = None) (t1 ++ t2))
    by (apply Forall_app; now split).
  destruct r2 as [[]|e];
    [|injection H as <- <-; now apply (Hstop w2 (t1 ++ t2))].
  destruct (Hok eq_refl) as (t' & policy & -> & Hpol).
  unfold ensure_cloudtrail, get_cloudtrail_regions, get_regions in H.
  run_in H.
  apply for_each_region_any in H as ((Hb & _) & t3 & Hc3 & Hall3).
  exists (t1 ++ t' ++ [PutBucketPolicy (name s3_bucket) policy]), t3.
  split; [rewrite Hc3, Hc12; now rewrite <- !app_assoc|].
  split; [exact Hall12|]. split.
  - eapply List.Forall_impl; [|exact Hall3].
    intros c (region_name & _ & ->). now eexists.
  - intros _. exists (t1 ++ t'), (name s3_bucket), policy.
    split; [now rewrite <- app_assoc | now rewrite Hb].
Qed.





(** The statements that reach the last lines of the composer were all
    carried forward by the loop. *)
Lemma ensure_bucket_policy_collected (s3_bucket : Bucket) (s3_prefix : string)
    (w w' : world) :
  ensure_bucket_policy s3_bucket s3_prefix w = (Ok tt, w') ->
  exists statements v,
    Forall (fun st => carried_forward st = true) statements /\
    log_only (with_calls (calls w ++ [GetBucketPolicy (name s3_bucket)]) w) v /\
    append_cloudtrail_statements s3_bucket s3_prefix statements v = (Ok tt, w').
Proof.
  rewrite ensure_bucket_policy_eq. run. intros H.
  pose proof (get_policy_world s3_bucket w) as Hw1.
  destruct (get_policy s3_bucket w) as [r0 w1]. cbn in Hw1. subst w1.
  set (w1 := with_calls (calls w ++ [GetBucketPolicy (name s3_bucket)]) w) in *.
  destruct r0 as [text|e].
  - destruct (truthy_str text);
      [|exists [], w1; split; [constructor|];
        split; [apply log_only_refl | exact H]].
    destruct (json_loads text) as [doc|e]; [|discriminate H].
    destruct (rbind (getitem doc "Statement") iter) as [existing|e];
      [|discriminate H].
    match type of H with
    | context [strip_cloudtrail_statements existing [] ?v] =>
        pose proof (strip_cloudtrail_statements_spec existing [] v) as Hloop;
        destruct (strip_cloudtrail_statements existing [] v) as [[kept|e] v']
    end; [|discriminate H].
    destruct Hloop as (_ & -> & Hlog).
    exists (List.filter carried_forward existing), v'.
    split; [|split; [now apply log_only_step in Hlog | exact H]].
    apply List.Forall_forall. intros st Hin. now apply filter_In in Hin.
  - destruct (is_Exception e); [|discriminate H].
    destruct (status e) as [s|e']; [|discriminate H].
    cbn in H. destruct (negb (s =? 404)); [discriminate H|].
    exists [], w1. split; [constructor|].
    split; [apply log_only_refl | exact H].
Qed.

Lemma count_sid_carried (sid : string) (statements : list value) :
  reserved_sid sid ->
  Forall (fun st => carried_forward st = true) statements ->
  count_sid sid statements = 0%nat.
Proof.
  intros Hres Hall. unfold count_sid.
  induction Hall as [|st l Hst _ IH]; [reflexivity|]. cbn.
  now rewrite (carried_forward_sid_is st sid Hst Hres).
Qed.

(** X22: every policy the composer installs is a fresh document: its
    version is "2012-10-17" whatever the old document said, its only other
    key is the Statement list, and that list ends with the ACL-check and the
    write statement, in this order, and holds exactly one statement of each
    of the two CloudTrail Sids. *)
Theorem ensure_bucket_policy_document (s3_bucket : Bucket)
    (s3_prefix : string) (w w' : world) :
  ensure_bucket_policy s3_bucket s3_prefix w = (Ok tt, w') ->
  exists kept aws_account_id aclcheck write,
    get_aws_cloudtrail_aclcheck_s3_policy_statement (name s3_bucket)
    = Ok aclcheck /\
    get_aws_cloudtrail_write_s3_policy_statement aws_account_id
      (name s3_bucket) s3_prefix = Ok write /\
    index (split ":" (caller_arn w)) 4 = Ok aws_account_id /\
    buckets w' !! name s3_bucket
    = Some (Some (json_dumps 2
                    (VDict [("Version", VStr "2012-10-17");
                            ("Statement", VList (kept ++ [aclcheck; write]))]))) /\
    count_sid "AWSCloudTrailAclCheck20131101" (kept ++ [aclcheck; write])
    = 1%nat /\
    count_sid "AWSCloudTrailWrite20131101" (kept ++ [aclcheck; write]) = 1%nat.
Proof.
  intros H.
  apply ensure_bucket_policy_collected in H
    as (kept & v & Hkept & Hlog & Htail).
  apply log_only_frame in Hlog as (_ & _ & _ & _ & Ha). cbn in Ha.
  apply append_cloudtrail_statements_any in Htail
    as (_ & [(e & [=] & _)
            | (a & acl & wr & Harn & Hacl & Hwr & _ & [[_ Hb] | (e & [=] & _)])]).
  exists kept, a, acl, wr.
  split; [exact Hacl|]. split; [exact Hwr|]. split; [now rewrite <- Ha|].
  split; [rewrite Hb; apply lookup_insert_eq|].
  pose proof (aclcheck_statement_sid _ _ Hacl) as Hsa.
  pose proof (write_statement_sid _ _ _ _ Hwr) as Hsw.
  assert (Hcount : forall sid, reserved_sid sid ->
            count_sid sid (kept ++ [acl; wr]) = count_sid sid [acl; wr]).
  { intros sid Hres. unfold count_sid. rewrite List.filter_app, length_app.
    fold (count_sid sid kept). now rewrite count_sid_carried. }
  split.
  - rewrite Hcount by exact reserved_aclcheck_sid.
    unfold count_sid, sid_is. cbn [List.filter]. now rewrite Hsa, Hsw.
  - rewrite Hcount by exact reserved_write_sid.
    unfold count_sid, sid_is. cbn [List.filter]. now rewrite Hsa, Hsw.
Qed.

End Script.

(** ** The properties on the example account *)

(** A lookup refused with 403 stops the ensurer, and the whole run, right
    after the GetBucket request. *)
Lemma ensure_s3_bucket_lookup_error_example :
  get_bucket "audit-logs" (example_account None (refuse_lookups 403))
  = (Raise (BotoServerError 403),
     with_calls [GetBucket "audit-logs"]
       (example_account None (refuse_lookups 403))) /\
  main Json.loads Json.dumps ["-b"; "audit-logs"]
    (example_account None (refuse_lookups 403))
  = (Raise (BotoServerError 403),
     with_calls [GetBucket "audit-logs"]
       (example_account None (refuse_lookups 403))).
Proof.
  split; [reflexivity|].
  apply (ensure_s3_bucket_lookup_error Json.loads Json.dumps "audit-logs"
           (example_account None (refuse_lookups 403))
           (with_calls [GetBucket "audit-logs"]
              (example_account None (refuse_lookups 403)))
           (BotoServerError 403) eq_refl) with (s := 403) (args :=
           {| args_bucket_name := Some "audit-logs"; args_s3_prefix := "" |});
    [reflexivity | lia | reflexivity | reflexivity | reflexivity].
Defined.


(** In us-east-1, where the example account has no trail, the trail
    "Default" is created. *)
Lemma ensure_cloudtrail_for_region_branch_example :
  In "us-east-1" (cloudtrail_regions (example_account None no_faults)) /\
  trails_in "us-east-1" (example_account None no_faults) = [] /\
  exists tail,
    calls (snd (ensure_cloudtrail_for_region "us-east-1" example_bucket "trail/"
                  (example_account None no_faults)))
    = [] ++ DescribeTrails "us-east-1"
         :: CreateTrail "us-east-1" "Default" "audit-logs" "trail/" true
         :: tail /\
    (tail = [] \/ tail = [StartLogging "us-east-1" "Default"]).
Proof.
  split; [now left|]. split; [reflexivity|].
  apply (ensure_cloudtrail_for_region_branch "us-east-1" example_bucket "trail/"
           (example_account None no_faults)); [now left | reflexivity..].
Defined.

(** On the example account the enabler goes through both regions. *)
Lemma ensure_cloudtrail_region_coverage_example :
  fault_free (example_account None no_faults) /\
  exists w' chunks,
    ensure_cloudtrail example_bucket "trail/" (example_account None no_faults)
    = (Ok tt, w') /\
    calls w' = [] ++ concat chunks /\
    Forall2 (region_calls example_bucket "trail/") ["us-east-1"; "us-west-2"]
      chunks.
Proof.
  split; [intros n c; reflexivity|].
  apply (ensure_cloudtrail_region_coverage example_bucket "trail/"
           (example_account None no_faults)).
  intros n c; reflexivity.
Defined.



(** A statement without a Sid in the existing policy stops the composer
    before it sets anything. *)
Lemma ensure_bucket_policy_requires_sid_example :
  ~ has_str_sid example_anonymous_statement /\
  exists e w',
    ensure_bucket_policy Json.loads Json.dumps example_bucket "trail/"
      (example_world [example_admin_statement; example_anonymous_statement])
    = (Raise e, w') /\
    (e = KeyError "Sid" \/ e = TypeError) /\
    calls w' = [] ++ [GetBucketPolicy "audit-logs"] /\
    buckets w'
    = buckets (example_world [example_admin_statement; example_anonymous_statement]).
Proof.
  assert (Hno : ~ has_str_sid example_anonymous_statement)
    by (intros [sid Hsid]; discriminate Hsid).
  split; [exact Hno|].
  apply (proj1 (proj2
           (ensure_bucket_policy_requires_sid Json.loads Json.dumps
              example_bucket "trail/"
              (example_world [example_admin_statement; example_anonymous_statement])
              (with_calls [GetBucketPolicy "audit-logs"]
                 (example_world
                    [example_admin_statement; example_anonymous_statement]))
              (Json.dumps 2
                 (example_policy
                    [example_admin_statement; example_anonymous_statement]))
              (example_policy
                 [example_admin_statement; example_anonymous_statement])
              [example_admin_statement; example_anonymous_statement]
              ltac:(vm_compute; reflexivity) ltac:(vm_compute; reflexivity)
              ltac:(vm_compute; reflexivity) eq_refl))
           example_anonymous_statement);
    [right; now left | exact Hno].
Defined.


(** ** The further properties on the example account *)

(** The example caller's account id is the fifth field of its ARN. *)
Lemma get_aws_account_id_field_example :
  caller_arn (example_account None no_faults)
  = "arn" +:+ ":" +:+ "aws" +:+ ":" +:+ "iam" +:+ ":" +:+ "" +:+ ":" +:+
    "123456789012" +:+ ":" +:+ "user/ops" /\
  get_aws_account_id (example_account None no_faults)
  = (Ok "123456789012", with_calls [GetUser] (example_account None no_faults)).
Proof.
  split; [reflexivity|].
  apply (get_aws_account_id_field (example_account None no_faults)
           "arn" "aws" "iam" "" "123456789012" "user/ops");
    reflexivity.
Defined.

(** The example caller's ARN has five colons. *)
Lemma get_aws_account_id_colons_example :
  (4 <= count_char ":" (caller_arn (example_account None no_faults)))%nat /\
  exists account,
    get_aws_account_id (example_account None no_faults)
    = (Ok account, with_calls [GetUser] (example_account None no_faults)).
Proof.
  assert (H : (4 <= count_char ":" (caller_arn (example_account None no_faults)))%nat)
    by (vm_compute; lia).
  split; [exact H|].
  exact (proj2 (get_aws_account_id_colons (example_account None no_faults)
                  eq_refl) H).
Defined.

(** The example bucket exists: one lookup and nothing else. *)
Lemma ensure_s3_bucket_existing_example :
  is_Some (buckets (example_account None no_faults) !! "audit-logs") /\
  ensure_s3_bucket "audit-logs" (example_account None no_faults)
  = (Ok {| name := "audit-logs" |},
     with_calls [GetBucket "audit-logs"] (example_account None no_faults)).
Proof.
  assert (H : is_Some (buckets (example_account None no_faults) !! "audit-logs"))
    by (eexists; vm_compute; reflexivity).
  split; [exact H|].
  exact (ensure_s3_bucket_existing "audit-logs"
           (example_account None no_faults) eq_refl H).
Defined.

(** A bucket that is missing from the example account is created. *)
Lemma ensure_s3_bucket_returns_example :
  fst (ensure_s3_bucket "fresh-logs" (example_account None no_faults))
  = Ok {| name := "fresh-logs" |} /\
  is_Some (buckets (snd (ensure_s3_bucket "fresh-logs"
                           (example_account None no_faults)))
             !! "fresh-logs") /\
  buckets (snd (ensure_s3_bucket "fresh-logs" (example_account None no_faults)))
    !! "audit-logs"
  = buckets (example_account None no_faults) !! "audit-logs".
Proof.
  split; [vm_compute; reflexivity|].
  destruct (ensure_s3_bucket_returns "fresh-logs"
              (example_account None no_faults)
              (snd (ensure_s3_bucket "fresh-logs"
                      (example_account None no_faults)))
              {| name := "fresh-logs" |})
    as (_ & Hex & _ & Hother & _).
  - vm_compute; reflexivity.
  - split; [exact Hex|]. apply Hother. discriminate.
Defined.

(** A lost connection during the lookups surfaces as AttributeError. *)
Lemma lookup_error_without_status_example :
  get_bucket "audit-logs" (example_account None drop_lookups)
  = (Raise ConnectionError,
     with_calls [GetBucket "audit-logs"] (example_account None drop_lookups)) /\
  ensure_s3_bucket "audit-logs" (example_account None drop_lookups)
  = (Raise (AttributeError "status"),
     with_calls [GetBucket "audit-logs"] (example_account None drop_lookups)).
Proof.
  split; [reflexivity|].
  apply (proj1 (lookup_error_without_status Json.loads Json.dumps
                  ConnectionError eq_refl
                  (fun s H => eq_ind ConnectionError
                                (fun e => match e with
                                          | ConnectionError => True
                                          | _ => False
                                          end) I _ H))).
  reflexivity.
Defined.

(** A run of the composer on the example policy leaves the trails alone. *)
Lemma ensure_bucket_policy_frame_example :
  trails (snd (ensure_bucket_policy Json.loads Json.dumps example_bucket
                 "trail/"
                 (example_world [example_admin_statement; example_stale_statement])))
  = trails (example_world [example_admin_statement; example_stale_statement]).
Proof.
  apply (ensure_bucket_policy_frame Json.loads Json.dumps example_bucket
           "trail/"
           (example_world [example_admin_statement; example_stale_statement])
           (snd (ensure_bucket_policy Json.loads Json.dumps example_bucket
                   "trail/"
                   (example_world
                      [example_admin_statement; example_stale_statement])))
           (fst (ensure_bucket_policy Json.loads Json.dumps example_bucket
                   "trail/"
                   (example_world
                      [example_admin_statement; example_stale_statement])))).
  vm_compute; reflexivity.
Defined.


(** A policy text that is not JSON stops the composer. *)
Lemma ensure_bucket_policy_bad_document_example :
  Json.loads "not json" = Raise ValueError /\
  fst (ensure_bucket_policy Json.loads Json.dumps example_bucket "trail/"
         (example_account (Some "not json") no_faults))
  = Raise ValueError.
Proof.
  assert (H : Json.loads "not json" = Raise ValueError)
    by (vm_compute; reflexivity).
  split; [exact H|].
  rewrite (proj1 (proj2
             (ensure_bucket_policy_bad_document Json.loads Json.dumps
                example_bucket "trail/" "not json"
                (example_account (Some "not json") no_faults)
                (with_calls [GetBucketPolicy "audit-logs"]
                   (example_account (Some "not json") no_faults))
                eq_refl eq_refl)) ValueError H).
  reflexivity.
Defined.

(** A policy whose Statement is one object, not a list, stops the
    composer. *)
Lemma ensure_bucket_policy_statement_not_a_list_example :
  fst (ensure_bucket_policy Json.loads Json.dumps example_bucket "trail/"
         (example_account
            (Some (Json.dumps 2
                     (VDict [("Version", VStr "2008-10-17");
                             ("Statement", example_admin_statement)])))
            no_faults))
  = Raise TypeError.
Proof.
  rewrite (proj1
             (ensure_bucket_policy_statement_not_a_list Json.loads Json.dumps
                example_bucket "trail/"
                (Json.dumps 2
                   (VDict [("Version", VStr "2008-10-17");
                           ("Statement", example_admin_statement)]))
                (example_account
                   (Some (Json.dumps 2
                            (VDict [("Version", VStr "2008-10-17");
                                    ("Statement", example_admin_statement)])))
                   no_faults)
                (with_calls [GetBucketPolicy "audit-logs"]
                   (example_account
                      (Some (Json.dumps 2
                               (VDict [("Version", VStr "2008-10-17");
                                       ("Statement", example_admin_statement)])))
                      no_faults))
                (VDict [("Version", VStr "2008-10-17");
                        ("Statement", example_admin_statement)])
                example_admin_statement
                ltac:(vm_compute; reflexivity) ltac:(vm_compute; reflexivity)
                ltac:(vm_compute; reflexivity) eq_refl
                ltac:(intros items H; discriminate H)
                ltac:(intros H; discriminate H)
                ltac:(intros H; discriminate H))).
  reflexivity.
Defined.

(** A caller whose ARN has no colon gets no policy written. *)
Lemma ensure_bucket_policy_short_arn_example :
  (count_char ":"
     (caller_arn (with_caller_arn "root" (example_account None no_faults))) < 4)%nat /\
  exists e t,
    fst (ensure_bucket_policy Json.loads Json.dumps example_bucket "trail/"
           (with_caller_arn "root" (example_account None no_faults)))
    = Raise e /\
    calls (snd (ensure_bucket_policy Json.loads Json.dumps example_bucket
                  "trail/"
                  (with_caller_arn "root" (example_account None no_faults))))
    = [] ++ GetBucketPolicy "audit-logs" :: t /\
    (t = [] \/ t = [GetUser]) /\
    buckets (snd (ensure_bucket_policy Json.loads Json.dumps example_bucket
                    "trail/"
                    (with_caller_arn "root" (example_account None no_faults))))
    = buckets (with_caller_arn "root" (example_account None no_faults)).
Proof.
  assert (H : (count_char ":"
                 (caller_arn (with_caller_arn "root"
                                (example_account None no_faults))) < 4)%nat)
    by (vm_compute; lia).
  split; [exact H|].
  exact (ensure_bucket_policy_short_arn Json.loads Json.dumps example_bucket
           "trail/" (with_caller_arn "root" (example_account None no_faults)) H).
Defined.

(** A name that is not in the region list gets no request. *)
Lemma ensure_cloudtrail_for_region_unknown_example :
  ~ In "mars-1" (cloudtrail_regions (example_account None no_faults)) /\
  ensure_cloudtrail_for_region "mars-1" example_bucket "trail/"
    (example_account None no_faults)
  = (Raise (AttributeError "describe_trails"), example_account None no_faults).
Proof.
  assert (H : ~ In "mars-1" (cloudtrail_regions (example_account None no_faults)))
    by (intros [H|[H|[]]]; discriminate H).
  split; [exact H|].
  exact (ensure_cloudtrail_for_region_unknown "mars-1" example_bucket "trail/"
           (example_account None no_faults) H).
Defined.

(** When creating the trail is refused in us-east-1, logging is not
    started there. *)
Lemma ensure_cloudtrail_for_region_failure_example :
  In "us-east-1"
    (cloudtrail_regions (example_account None (refuse_create_trail 400))) /\
  ensure_cloudtrail_for_region "us-east-1" example_bucket "trail/"
    (example_account None (refuse_create_trail 400))
  = (Raise (BotoServerError 400),
     with_calls
       [DescribeTrails "us-east-1";
        CreateTrail "us-east-1" "Default" "audit-logs" "trail/" true]
       (example_account None (refuse_create_trail 400))).
Proof.
  assert (H : In "us-east-1"
                (cloudtrail_regions
                   (example_account None (refuse_create_trail 400))))
    by (now left).
  split; [exact H|].
  exact (proj2 (ensure_cloudtrail_for_region_failure "us-east-1"
                  example_bucket "trail/"
                  (example_account None (refuse_create_trail 400))
                  (BotoServerError 400) H) eq_refl eq_refl).
Defined.

(** The enabler leaves the example bucket alone. *)
Lemma ensure_cloudtrail_only_trails_example :
  buckets (snd (ensure_cloudtrail example_bucket "trail/"
                  (example_account None no_faults)))
  = buckets (example_account None no_faults).
Proof.
  apply (ensure_cloudtrail_only_trails example_bucket "trail/"
           (example_account None no_faults)
           (snd (ensure_cloudtrail example_bucket "trail/"
                   (example_account None no_faults)))
           (fst (ensure_cloudtrail example_bucket "trail/"
                   (example_account None no_faults)))).
  vm_compute; reflexivity.
Defined.

(** When creating the trail is refused in us-east-1, us-west-2 gets no
    request. *)
Lemma ensure_cloudtrail_fail_fast_example :
  for_each_region ["us-east-1"] example_bucket "trail/"
    (example_account None (refuse_create_trail 400))
  = (Raise (BotoServerError 400),
     snd (for_each_region ["us-east-1"] example_bucket "trail/"
            (example_account None (refuse_create_trail 400)))) /\
  ensure_cloudtrail example_bucket "trail/"
    (example_account None (refuse_create_trail 400))
  = (Raise (BotoServerError 400),
     snd (for_each_region ["us-east-1"] example_bucket "trail/"
            (example_account None (refuse_create_trail 400)))).
Proof.
  assert (H : for_each_region ["us-east-1"] example_bucket "trail/"
                (example_account None (refuse_create_trail 400))
              = (Raise (BotoServerError 400),
                 snd (for_each_region ["us-east-1"] example_bucket "trail/"
                        (example_account None (refuse_create_trail 400)))))
    by (vm_compute; reflexivity).
  split; [exact H|].
  exact (ensure_cloudtrail_fail_fast example_bucket "trail/"
           (example_account None (refuse_create_trail 400))
           (snd (for_each_region ["us-east-1"] example_bucket "trail/"
                   (example_account None (refuse_create_trail 400))))
           ["us-east-1"] ["us-west-2"] (Raise (BotoServerError 400))
           eq_refl H).
Defined.

(** After a run on the example account both regions are configured. *)
Lemma ensure_cloudtrail_configures_example :
  fault_free (example_account None no_faults) /\
  exists w',
    ensure_cloudtrail example_bucket "trail/" (example_account None no_faults)
    = (Ok tt, w') /\
    region_configured example_bucket "trail/" "us-east-1" w' /\
    region_configured example_bucket "trail/" "us-west-2" w'.
Proof.
  assert (Hff : fault_free (example_account None no_faults))
    by (intros n c; reflexivity).
  split; [exact Hff|].
  destruct (ensure_cloudtrail_configures example_bucket "trail/"
              (example_account None no_faults) Hff) as (w' & Hrun & Hconf).
  exists w'. split; [exact Hrun|].
  split; apply Hconf; [now left | right; now left].
Defined.

(** A second run on the example account only updates. *)
Lemma ensure_cloudtrail_twice_example :
  fault_free (example_account None no_faults) /\
  exists w1 w2 chunks,
    ensure_cloudtrail example_bucket "trail/" (example_account None no_faults)
    = (Ok tt, w1) /\
    ensure_cloudtrail example_bucket "trail/" w1 = (Ok tt, w2) /\
    calls w2 = calls w1 ++ concat chunks /\
    Forall2 (region_update_calls example_bucket "trail/")
      ["us-east-1"; "us-west-2"] chunks.
Proof.
  assert (Hff : fault_free (example_account None no_faults))
    by (intros n c; reflexivity).
  split; [exact Hff|].
  exact (ensure_cloudtrail_twice example_bucket "trail/"
           (example_account None no_faults) Hff).
Defined.

(** An empty bucket name on the command line. *)
Lemma main_empty_bucket_name_example :
  fst (parse_args ["-b"; ""] parser_defaults (example_account None no_faults))
  = Ok {| args_bucket_name := Some ""; args_s3_prefix := "" |} /\
  exit_status (fst (main Json.loads Json.dumps ["-b"; ""]
                      (example_account None no_faults))) = 1.
Proof.
  split; [reflexivity|].
  exact (proj2 (main_empty_bucket_name Json.loads Json.dumps ["-b"; ""]
                  (example_account None no_faults)
                  {| args_bucket_name := Some ""; args_s3_prefix := "" |}
                  eq_refl eq_refl)).
Defined.

(** The order of the requests of a whole run on the example policy. *)
Lemma main_trails_after_policy_example :
  exists before after,
    calls (snd (main Json.loads Json.dumps ["-b"; "audit-logs"]
                  (example_world
                     [example_admin_statement; example_stale_statement])))
    = [] ++ before ++ after /\
    Forall (fun c => call_region c = None) before /\
    Forall (fun c => is_Some (call_region c)) after.
Proof.
  destruct (main_trails_after_policy Json.loads Json.dumps
              ["-b"; "audit-logs"]
              (example_world [example_admin_statement; example_stale_statement])
              (snd (main Json.loads Json.dumps ["-b"; "audit-logs"]
                      (example_world
                         [example_admin_statement; example_stale_statement])))
              (fst (main Json.loads Json.dumps ["-b"; "audit-logs"]
                      (example_world
                         [example_admin_statement; example_stale_statement]))))
    as (before & after & Hc & Hb & Ha & _).
  - vm_compute; reflexivity.
  - exists before, after. split; [exact Hc|]. split; [exact Hb | exact Ha].
Defined.


(** The policy installed on the example bucket. *)
Lemma ensure_bucket_policy_document_example :
  exists kept aclcheck write,
    buckets (snd (ensure_bucket_policy Json.loads Json.dumps example_bucket
                    "trail/"
                    (example_world
                       [example_admin_statement; example_stale_statement])))
      !! "audit-logs"
    = Some (Some (Json.dumps 2
                    (VDict [("Version", VStr "2012-10-17");
                            ("Statement", VList (kept ++ [aclcheck; write]))]))) /\
    count_sid "AWSCloudTrailWrite20131101" (kept ++ [aclcheck; write]) = 1%nat.
Proof.
  destruct (ensure_bucket_policy_document Json.loads Json.dumps example_bucket
              "trail/"
              (example_world [example_admin_statement; example_stale_statement])
              (snd (ensure_bucket_policy Json.loads Json.dumps example_bucket
                      "trail/"
                      (example_world
                         [example_admin_statement; example_stale_statement]))))
    as (kept & account & aclcheck & write & _ & _ & _ & Hb & _ & Hcw).
  - vm_compute; reflexivity.
  - exists kept, aclcheck, write. split; [exact Hb | exact Hcw].
Defined.
